(** * hw5: the questionnaire analysis class, embedded and verified

    The development follows [src/hw5.py].  The class
    [QuestionnaireAnalysis] holds a reference to one pandas [DataFrame]
    in [self.data]; frames are mutable objects in a store, and the
    methods are embedded as functions in a small state and error monad
    over that store.  Python values that the methods inspect
    dynamically (the [email] cells) are a tagged union [pyobj]; float64
    cells are exact rationals with [None] for NaN; nullable [UInt8]
    cells are a two-constructor type. *)

From Stdlib Require Import ZArith NArith QArith Qround Qfield List Bool Sorted Lia.
From stdpp Require Import base option list strings gmap.

Close Scope Q_scope.
Open Scope Z_scope.

(** ** Python layer: exceptions and results *)

Module Py.

Inductive exn : Type :=
| TypeError
| AttributeError
| IndexError
| ValueError
| IntCastingNaNError.

Inductive result (A : Type) : Type :=
| Ok (a : A)
| Raise (e : exn).

Arguments Ok {A} a.
Arguments Raise {A} e.

Definition bind {A B : Type} (m : result A) (k : A -> result B) : result B :=
  match m with
  | Ok a => k a
  | Raise e => Raise e
  end.

Definition lift {A B : Type} (f : A -> B) (m : result A) : result B :=
  bind m (fun a => Ok (f a)).

Notation "x <- m ;; k" := (bind m (fun x => k))
  (at level 100, m at next level, right associativity).

(** [Series.apply(f)]: [f] is called on the cells in order; the first
    exception ends the call. *)
Fixpoint apply {A B : Type} (f : A -> result B) (xs : list A) : result (list B) :=
  match xs with
  | [] => Ok []
  | x :: xs' =>
      y <- f x;;
      ys <- apply f xs';;
      Ok (y :: ys)
  end.

(** *** [str]: a sequence of Unicode code points *)

Definition str : Type := list N.

Definition at_sign : N := 64%N.
Definition dot : N := 46%N.

(** ["c" in s], for a one-character literal ["c"]. *)
Definition str_contains (c : N) (s : str) : bool := existsb (N.eqb c) s.

(** [s.startswith("c")] *)
Definition str_startswith (c : N) (s : str) : bool :=
  match s with
  | x :: _ => N.eqb x c
  | [] => false
  end.

(** [s.endswith("c")] *)
Definition str_endswith (c : N) (s : str) : bool := str_startswith c (rev s).

(** [s.isascii()]: every code point is below 128 (true of the empty
    string). *)
Definition str_isascii (s : str) : bool := forallb (fun x => N.ltb x 128) s.

(** [s.count("c")] *)
Fixpoint str_count (c : N) (s : str) : Z :=
  match s with
  | [] => 0
  | x :: s' => (if N.eqb x c then 1 else 0) + str_count c s'
  end.

(** [s.find("c")]: the lowest index of ["c"], or [-1]. *)
Fixpoint str_find (c : N) (s : str) : Z :=
  match s with
  | [] => -1
  | x :: s' =>
      if N.eqb x c then 0
      else let i := str_find c s' in if i <? 0 then -1 else i + 1
  end.

(** [s[i]]: a negative index counts from the end; out of range raises
    [IndexError]. *)
Definition str_getitem (s : str) (i : Z) : result N :=
  let n := Z.of_nat (length s) in
  let j := if i <? 0 then i + n else i in
  if (j <? 0) || (n <=? j) then Raise IndexError
  else match nth_error s (Z.to_nat j) with
       | Some x => Ok x
       | None => Raise IndexError
       end.

(** *** Dynamically typed cells

    What an [email] cell of an object column can hold after
    [pd.read_json]: [None], a boolean, a number (NaN is
    [PyFloat None]), a string, or a list of strings. *)

Inductive pyobj : Type :=
| PyNone
| PyBool (b : bool)
| PyInt (z : Z)
| PyFloat (f : option Q)
| PyStr (s : str)
| PyList (items : list str).

Definition str_eqb (a b : str) : bool := bool_decide (a = b).

(** ["c" in o]: a substring test on a string, a membership test on a
    list, [TypeError] ("argument of type ... is not iterable") on the
    scalars. *)
Definition py_in (c : N) (o : pyobj) : result bool :=
  match o with
  | PyStr s => Ok (str_contains c s)
  | PyList items => Ok (existsb (str_eqb [c]) items)
  | PyNone | PyBool _ | PyInt _ | PyFloat _ => Raise TypeError
  end.

(** Attribute lookup of a [str] method: only a string has it. *)
Definition py_str_method {A : Type} (f : str -> result A) (o : pyobj) : result A :=
  match o with
  | PyStr s => f s
  | _ => Raise AttributeError
  end.

Definition py_startswith (c : N) : pyobj -> result bool :=
  py_str_method (fun s => Ok (str_startswith c s)).
Definition py_endswith (c : N) : pyobj -> result bool :=
  py_str_method (fun s => Ok (str_endswith c s)).
Definition py_isascii : pyobj -> result bool :=
  py_str_method (fun s => Ok (str_isascii s)).
Definition py_count (c : N) : pyobj -> result Z :=
  py_str_method (fun s => Ok (str_count c s)).
Definition py_find (c : N) : pyobj -> result Z :=
  py_str_method (fun s => Ok (str_find c s)).

(** [o[i]] *)
Definition py_getitem (o : pyobj) (i : Z) : result pyobj :=
  match o with
  | PyStr s => x <- str_getitem s i;; Ok (PyStr [x])
  | PyList items =>
      let n := Z.of_nat (length items) in
      let j := if i <? 0 then i + n else i in
      if (j <? 0) || (n <=? j) then Raise IndexError
      else match nth_error items (Z.to_nat j) with
           | Some x => Ok (PyStr x)
           | None => Raise IndexError
           end
  | PyNone | PyBool _ | PyInt _ | PyFloat _ => Raise TypeError
  end.

(** [o == "c"] against a one-character literal: never raises. *)
Definition py_eq_char (o : pyobj) (c : N) : bool :=
  match o with
  | PyStr s => str_eqb s [c]
  | _ => false
  end.

End Py.

Import Py.

(** ** [QuestionnaireAnalysis._validate_email] (hw5.py, lines 59-84)

    The tests run in the order of the source; [or] evaluates its
    second operand only when the first is false. *)

Definition _validate_email (email : pyobj) : result bool :=
  no_at <- lift negb (py_in at_sign email);;
  missing <- (if no_at then Ok true else lift negb (py_in dot email));;
  if missing then Ok false else
  at_edge <- (a <- py_startswith at_sign email;;
              if a then Ok true else py_endswith at_sign email);;
  if at_edge then Ok false else
  dot_edge <- (a <- py_startswith dot email;;
               if a then Ok true else py_endswith dot email);;
  if dot_edge then Ok false else
  ascii <- py_isascii email;;
  if negb ascii then Ok false else
  n <- py_count at_sign email;;
  if negb (n =? 1) then Ok false else
  i <- py_find at_sign email;;
  c <- py_getitem email (i + 1);;
  if py_eq_char c dot then Ok false else
  Ok true.

(** ** The data frame

    A float64 cell is an exact rational, [None] is NaN; the cells of
    this model are finite.  A row carries its label in the index of
    the frame, a natural number, as [read_json] makes of the keys of
    the file: the labels need not be [0..n-1], nor in order.  The
    columns [q1] to [q5] are adjacent, so the label slice
    [.loc[:, "q1":"q5"]] selects exactly these five. *)

Definition cell : Type := option Q.

(** A cell of the nullable [UInt8] extension type. *)
Inductive UInt8 : Type :=
| NA
| U8 (n : Z).

Record row : Type := mk_row {
  label : nat;
  age : cell;
  gender : option str;
  email : pyobj;
  q1 : cell;
  q2 : cell;
  q3 : cell;
  q4 : cell;
  q5 : cell;
  score : option UInt8  (* [None]: the frame has no [score] column *)
}.

(** *** The store of frames

    A [DataFrame] is a mutable object: a variable or an attribute holds
    a reference to it, and an assignment into the frame is seen through
    every reference.  The store maps the references in use to the rows
    of their frames. *)

Abbreviation ref := positive.
Abbreviation heap := (gmap positive (list row)).

Record QuestionnaireAnalysis : Type := mk_self {
  data_fname : str;
  data : ref
}.

(** A method body: runs on a store, raises or returns a value and the
    store as it leaves it. *)
Definition method (A : Type) : Type := heap -> result (A * heap).

Definition ret {A : Type} (a : A) : method A := fun h => Ok (a, h).

Definition and_then {A B : Type} (m : method A) (k : A -> method B) : method B :=
  fun h =>
    match m h with
    | Ok (a, h') => k a h'
    | Raise e => Raise e
    end.

Notation "x <~ m ;; k" := (and_then m (fun x => k))
  (at level 100, m at next level, right associativity).

(** An expression that only computes: its exception, if any, leaves
    the method. *)
Definition eval {A : Type} (r : result A) : method A :=
  fun h => a <- r;; Ok (a, h).

(** The rows of the frame behind a reference.  Every frame of this
    model has the columns of the data file; a reference that the
    store does not hold reads as such a frame without rows.  The
    frame without columns that [__init__] leaves in [self.data], on
    which the methods raise [KeyError], is not modelled. *)
Definition frame (h : heap) (l : ref) : list row := default [] (h !! l).

Definition get (l : ref) : method (list row) := fun h => Ok (frame h l, h).

(** An assignment into the frame, in place. *)
Definition put (l : ref) (d : list row) : method unit :=
  fun h => Ok (tt, <[l := d]> h).

(** A new frame object. *)
Definition new (d : list row) : method ref :=
  fun h => let l := fresh (dom h) in Ok (l, <[l := d]> h).

(** [df.copy()] *)
Definition copy (l : ref) : method ref :=
  d <~ get l;; new d.

Definition isna (c : cell) : bool :=
  match c with
  | None => true
  | Some _ => false
  end.

Definition notnull (c : cell) : bool := negb (isna c).

(** [df.loc[:, "q1":"q5"]], one row *)
Definition grades (r : row) : list cell := [q1 r; q2 r; q3 r; q4 r; q5 r].

(** [df.loc[:, "q1":"q5"] = values], one row *)
Definition set_grades (r : row) (g : list cell) : row :=
  match g with
  | [a; b; c; d; e] =>
      mk_row (label r) (age r) (gender r) (email r) a b c d e (score r)
  | _ => r
  end.

(** [df["score"] = value], one row *)
Definition set_score (r : row) (s : UInt8) : row :=
  mk_row (label r) (age r) (gender r) (email r)
         (q1 r) (q2 r) (q3 r) (q4 r) (q5 r) (Some s).

(** The row under another label. *)
Definition set_label (r : row) (l : nat) : row :=
  mk_row l (age r) (gender r) (email r) (q1 r) (q2 r) (q3 r) (q4 r) (q5 r) (score r).

(** [df.reset_index(drop=True)]: the labels become [0..n-1]. *)
Definition reset_index (d : list row) : list row :=
  zip_with set_label d (seq 0 (length d)).

(** Boolean indexing: [xs[mask]]. *)
Fixpoint mask_select {A : Type} (xs : list A) (mask : list bool) : list A :=
  match xs, mask with
  | x :: xs', b :: mask' =>
      if b then x :: mask_select xs' mask' else mask_select xs' mask'
  | _, _ => []
  end.

Definition Qsum (xs : list Q) : Q := fold_right Qplus (0 # 1)%Q xs.

(** The values of the cells that are not NaN. *)
Definition present (xs : list cell) : list Q := omap id xs.

(** [mean] with [skipna=True]: NaN cells are left out; the mean of no
    value at all is NaN.  The sum and the quotient are the exact ones,
    not those rounded to [float64]. *)
Definition nanmean (xs : list cell) : cell :=
  match present xs with
  | [] => None
  | ys => Some (Qred (Qsum ys / inject_Z (Z.of_nat (length ys))))%Q
  end.

(** ** [remove_rows_without_mail] (lines 45-57) *)

Definition remove_rows_without_mail (self : QuestionnaireAnalysis) : method (list row) :=
  d <~ get (data self);;
  valid_email <~ eval (apply _validate_email (map email d));;
  ret (reset_index (mask_select d valid_email)).

(** ** [_find_rows_with_nulls] (lines 86-104) *)

Definition _find_rows_with_nulls (self : QuestionnaireAnalysis) : method (list nat) :=
  d <~ get (data self);;
  let relevant_columns := map grades d in
  let has_nulls := map (existsb isna) relevant_columns in
  let null_rows := mask_select (map label d) has_nulls in
  ret null_rows.

(** ** [_fill_na_with_mean] (lines 106-122) *)

(** [xs.where(cond, other)] on one row, and on a frame. *)
Fixpoint where_row (xs : list cell) (cond : list bool) (other : list cell) : list cell :=
  match xs, cond, other with
  | x :: xs', b :: cond', y :: other' =>
      (if b then x else y) :: where_row xs' cond' other'
  | _, _, _ => []
  end.

Fixpoint where_ (df : list (list cell)) (cond : list (list bool))
    (other : list (list cell)) : list (list cell) :=
  match df, cond, other with
  | r :: df', c :: cond', o :: other' =>
      where_row r c o :: where_ df' cond' other'
  | _, _, _ => []
  end.

Definition _fill_na_with_mean (self : QuestionnaireAnalysis) :
    method (list (list cell)) :=
  d <~ get (data self);;
  let grades_df := map grades d in
  let row_means := map nanmean grades_df in
  let means_df := map (fun m => repeat m 5) row_means in
  let filled_df := where_ grades_df (map (map notnull) grades_df) means_df in
  ret filled_df.

(** ** [fill_na_with_mean] (lines 126-141) *)

(** [df.loc[:, "q1":"q5"] = values], in place *)
Definition set_grades_columns (l : ref) (values : list (list cell)) : method unit :=
  d <~ get l;;
  put l (zip_with set_grades d values).

Definition fill_na_with_mean (self : QuestionnaireAnalysis) :
    method (ref * list nat) :=
  null_rows <~ _find_rows_with_nulls self;;
  filled_grades_df <~ _fill_na_with_mean self;;
  updated_df <~ copy (data self);;
  _ <~ set_grades_columns updated_df filled_grades_df;;
  ret (updated_df, null_rows).

(** ** [score_subjects] (lines 143-170) *)

(** The C cast of a float to an integer drops the fraction. *)
Definition Qtrunc (q : Q) : Z := Z.quot (Qnum q) (Z.pos (Qden q)).

(** numpy's cast of a truncated value that is not negative, as the C
    compiler makes it on x86-64: the low eight bits of the value as a
    32-bit integer, and 0 from 2^31 up, where that integer does not
    hold the value. *)
Definition cast_uint8 (z : Z) : Z :=
  if z <? 2 ^ 31 then z mod 256 else 0.

(** [Series.astype("uint8")] of a float64 column.  pandas refuses a
    column with a NaN ([IntCastingNaNError]: "Cannot convert non-finite
    values (NA or inf) to integer") and, for an unsigned target, a
    column with a negative value ([ValueError]); the values are then
    cast by numpy.  The cells of this model hold no infinity. *)
Definition astype_uint8 (xs : list cell) : result (list Z) :=
  match mapM id xs with
  | None => Raise IntCastingNaNError
  | Some qs =>
      if forallb (Qle_bool (0 # 1)) qs
      then Ok (map (fun q => cast_uint8 (Qtrunc q)) qs)
      else Raise ValueError
  end.

(** [isna().sum()] on one row *)
Definition count_na (xs : list cell) : Z := Z.of_nat (length (List.filter isna xs)).

(** [df["score"] = values], in place *)
Definition set_score_column (l : ref) (values : list UInt8) : method unit :=
  d <~ get l;;
  put l (zip_with set_score d values).

(** [df.loc[mask, "score"] = pd.NA], in place *)
Definition mask_score_column (l : ref) (mask : list bool) : method unit :=
  d <~ get l;;
  put l (zip_with (fun r (m : bool) => if m then set_score r NA else r) d mask).

(** The method returns [self.data] itself: the reference, not a copy. *)
Definition score_subjects (self : QuestionnaireAnalysis)
    (maximal_nans_per_sub : Z) : method ref :=
  d <~ get (data self);;
  let question_columns := map grades d in
  u8 <~ eval (astype_uint8 (map nanmean question_columns));;
  _ <~ set_score_column (data self) (map U8 u8);;
  let more_than_maximal_nans_row_indices :=
    map (fun g => count_na g >? maximal_nans_per_sub) question_columns in
  _ <~ mask_score_column (data self) more_than_maximal_nans_row_indices;;
  ret (data self).

(** ** [correlate_gender_age] (lines 172-184) *)

(** [lambda x: x > 40]; a comparison with NaN is false. *)
Definition over_40 (x : cell) : bool :=
  match x with
  | Some a => negb (Qle_bool a (40 # 1))
  | None => false
  end.

(** [dropna(subset=["age"])] *)
Definition dropna_age (d : list row) : list row :=
  List.filter (fun r => notnull (age r)) d.

(** The key of a row under
    [groupby([None, lambda x: x > 40], level=[1, 2])]: index level 1
    ([gender]) by its value, level 2 ([age]) through the function. *)
Definition group_key (r : row) : option str * bool := (gender r, over_40 (age r)).

(** With [dropna=True], the default, a row with a missing key level
    joins no group. *)
Definition key_isna (k : option str * bool) : bool :=
  match k.1 with
  | None => true
  | Some _ => false
  end.

Definition add_to_group (k : option str * bool) (g : list cell)
    (m : gmap (option str * bool) (list (list cell))) :
    gmap (option str * bool) (list (list cell)) :=
  <[k := default [] (m !! k) ++ [g]]> m.

Definition group_step (m : gmap (option str * bool) (list (list cell))) (r : row) :
    gmap (option str * bool) (list (list cell)) :=
  let k := group_key r in
  if key_isna k then m else add_to_group k (grades r) m.

Definition groupby (d : list row) : gmap (option str * bool) (list (list cell)) :=
  fold_left group_step d ∅.

(** [mean()] of a group: per column, NaN cells left out. *)
Definition column (j : nat) (rows : list (list cell)) : list cell :=
  map (fun r => nth j r None) rows.

Definition group_mean (rows : list (list cell)) : list cell :=
  map (fun j => nanmean (column j rows)) (seq 0 5).

(** The result is a new frame indexed by the group keys; only the
    mapping from key to row is kept here, not the order of the rows. *)
Definition correlate_gender_age (self : QuestionnaireAnalysis) :
    method (gmap (option str * bool) (list cell)) :=
  d <~ get (data self);;
  let df_with_age := dropna_age d in
  let grouped := groupby df_with_age in
  ret (group_mean <$> grouped).

(** ** Specification vocabulary *)

(** The six conditions of a valid address, on the characters of the
    string. *)
Record valid_email (s : str) : Prop := {
  has_at_and_dot : In at_sign s /\ In dot s;
  at_not_at_edge : head s <> Some at_sign /\ last s <> Some at_sign;
  dot_not_at_edge : head s <> Some dot /\ last s <> Some dot;
  only_ascii : Forall (fun c => (c < 128)%N) s;
  exactly_one_at : count_occ N.eq_dec s at_sign = 1%nat;
  no_dot_after_at :
    forall pre post, s = pre ++ at_sign :: post -> head post <> Some dot
}.

(** A string literal as a [str]. *)
Definition of_ascii (s : string) : str :=
  map (fun a => N.of_nat (Ascii.nat_of_ascii a)) (String.list_ascii_of_string s).

(** The values [_validate_email] is not written for: [None] and the
    scalars, on which the [in] operator is not defined. *)
Definition not_iterable (o : pyobj) : Prop :=
  match o with
  | PyNone | PyBool _ | PyInt _ | PyFloat _ => True
  | PyStr _ | PyList _ => False
  end.

Definition is_str (o : pyobj) : Prop :=
  match o with
  | PyStr _ => True
  | _ => False
  end.

(** The rows that [remove_rows_without_mail] is to keep. *)
Definition has_valid_email (r : row) : bool :=
  match _validate_email (email r) with
  | Ok true => true
  | _ => false
  end.

(** A row with an answer missing. *)
Definition has_missing_answer (r : row) : Prop :=
  q1 r = None \/ q2 r = None \/ q3 r = None \/ q4 r = None \/ q5 r = None.

#[global] Instance has_missing_answer_dec (r : row) :
  Decision (has_missing_answer r) :=
  ltac:(unfold has_missing_answer; apply _).

(** A row with an answer given. *)
Definition has_answer (r : row) : Prop :=
  exists v, In (Some v) (grades r).

Definition all_missing (r : row) : Prop :=
  grades r = [None; None; None; None; None].

(** [m] is the arithmetic mean of [vals]; of no value, it is NaN. *)
Definition is_mean_of (vals : list Q) (m : cell) : Prop :=
  match vals, m with
  | [], None => True
  | _ :: _, Some v => (v * inject_Z (Z.of_nat (length vals)) == Qsum vals)%Q
  | _, _ => False
  end.

(** The rows of the bucket [(g, b)]: age known, gender [g], and
    [age > 40] exactly when [b]. *)
Definition in_bucket (g : str) (b : bool) (r : row) : bool :=
  match age r, gender r with
  | Some a, Some g' =>
      bool_decide (g' = g) &&
      (if Qlt_le_dec (40 # 1) a then b else negb b)
  | _, _ => false
  end.

Definition bucket (d : list row) (g : str) (b : bool) : list row :=
  List.filter (in_bucket g b) d.

(** The per-question means of a set of rows. *)
Definition question_means (rs : list row) : list cell :=
  [nanmean (map q1 rs); nanmean (map q2 rs); nanmean (map q3 rs);
   nanmean (map q4 rs); nanmean (map q5 rs)].

(** The object [q] of the script, and the store once [read_data] has
    loaded the rows [d] into [q.data]. *)
Definition q : QuestionnaireAnalysis := mk_self (of_ascii "data.json") 1%positive.

Definition loaded (d : list row) : heap := {[ data q := d ]}.

(** Sample rows. *)
Definition subject (a : cell) (g : option str) (e : pyobj) (qs : list cell) : row :=
  set_grades (mk_row 0 a g e None None None None None None) qs.

Definition num (z : Z) : cell := Some (inject_Z z).

Definition sample_mixed_emails : list row :=
  reset_index
   ([subject (num 30) None (PyStr (of_ascii "a@b.c")) [num 1; None; None; None; None];
     subject None None (PyInt 7) [None; None; None; None; None]]).

(** What [_fill_na_with_mean] makes of one row of grades. *)
Definition fill_row (g : list cell) : list cell :=
  where_row g (map notnull g) (repeat (nanmean g) 5).

(** The frame with its grades filled, row by row. *)
Definition filled_rows (d : list row) : list row :=
  map (fun r => set_grades r (fill_row (grades r))) d.

Definition sample_answers : list row :=
  reset_index
   ([subject (num 30) (Some (of_ascii "F")) (PyStr (of_ascii "a@b.c"))
       [num 2; num 4; num 6; num 8; None];
     subject (num 50) (Some (of_ascii "M")) (PyStr (of_ascii "c@d.e"))
       [num 2; num 4; None; None; None];
     subject None None (PyStr []) [num 1; num 2; num 3; num 4; num 5]]).

(** The scoring rule in the words of the method's docstring: NA with
    more than [maximal_nans_per_sub] answers missing, otherwise the
    mean of the given answers rounded down, NA when there is none. *)
Definition row_score (maximal_nans_per_sub : Z) (r : row) : UInt8 :=
  if count_na (grades r) >? maximal_nans_per_sub then NA
  else match nanmean (grades r) with
       | Some m => U8 (Qfloor m)
       | None => NA
       end.

(** The row's mean exists and fits the [uint8] range. *)
Definition mean_in_uint8 (r : row) : Prop :=
  exists m, nanmean (grades r) = Some m /\ (0 <= m)%Q /\ (m < 256 # 1)%Q.

Definition unanswered : row :=
  subject (num 25) (Some (of_ascii "F")) (PyStr (of_ascii "e@f.g"))
    [None; None; None; None; None].

Definition sample_unanswered : list row :=
  reset_index
   ([subject (num 30) (Some (of_ascii "F")) (PyStr (of_ascii "a@b.c"))
       [num 2; num 4; num 6; num 8; None];
     unanswered]).

(** The grades of the rows of [d] whose group key is [k], in order. *)
Definition keyed_grades (k : option str * bool) (d : list row) : list (list cell) :=
  map grades (List.filter (fun r => bool_decide (group_key r = k)) d).

Definition has_gender (r : row) : bool :=
  match gender r with
  | Some _ => true
  | None => false
  end.

(** Two women of 30 and 50 and a third subject of unknown age. *)
Definition sample_women : list row :=
  reset_index
   ([subject (num 30) (Some (of_ascii "F")) (PyStr (of_ascii "a@b.c"))
       [num 10; num 1; num 1; num 1; num 1];
     subject (num 50) (Some (of_ascii "F")) (PyStr (of_ascii "c@d.e"))
       [num 20; num 2; num 2; num 2; num 2];
     subject None (Some (of_ascii "F")) (PyStr (of_ascii "e@f.g"))
       [num 30; num 3; num 3; num 3; num 3]]).

(** A subject of known age and unknown gender. *)
Definition sample_no_gender : list row :=
    [subject (num 30) None (PyStr (of_ascii "a@b.c"))
       [num 10; num 1; num 1; num 1; num 1]].

(** A frame as [read_json] makes it of a file whose keys come in the
    order 1, 0: two rows, labelled 1 and 0, each with an answer
    missing. *)
Definition sample_reordered : list row :=
  [set_label (subject (num 30) (Some (of_ascii "F")) (PyStr (of_ascii "a@b.c"))
                [num 2; num 4; num 6; num 8; None]) 1;
   set_label (subject (num 50) (Some (of_ascii "M")) (PyStr (of_ascii "c@d.e"))
                [num 2; None; num 4; num 4; num 4]) 0].

(** The grades of [sample_answers] with the missing ones filled. *)
Definition sample_filled : list (list cell) :=
  [[num 2; num 4; num 6; num 8; num 5];
   [num 2; num 4; num 3; num 3; num 3];
   [num 1; num 2; num 3; num 4; num 5]].

(** ** [show_age_distrib] (lines 26-42)

    The drawing on the axes is left out; the method returns what
    [ax.hist] returns, the counts and the bin edges. *)

(** [np.linspace(0, 100, 11)] *)
Definition linspace_0_100_11 : list Q :=
  map (fun k => inject_Z (10 * Z.of_nat k)) (seq 0 11).

(** The bins of a histogram with the given edges: each bin holds the
    values from its left edge up to, and not including, its right
    edge; the last bin includes its right edge.  NaN is in no bin. *)
Fixpoint bins (edges : list Q) : list (cell -> bool) :=
  match edges with
  | lo :: ((hi :: rest) as edges') =>
      (fun x =>
         match x with
         | Some v =>
             Qle_bool lo v &&
             match rest with
             | [] => Qle_bool v hi
             | _ :: _ => negb (Qle_bool hi v)
             end
         | None => false
         end) :: bins edges'
  | _ => []
  end.

Definition hist (xs : list cell) (edges : list Q) : list nat :=
  map (fun in_bin => length (List.filter in_bin xs)) (bins edges).

Definition show_age_distrib (self : QuestionnaireAnalysis) :
    method (list nat * list Q) :=
  d <~ get (data self);;
  let bin_edges := linspace_0_100_11 in
  let hist_values := hist (map age d) bin_edges in
  ret (hist_values, bin_edges).

(** ** [compare_files] (lines 194-219)

    [pd.read_csv] belongs to pandas: the frames it returns for
    [file1] and [file2] are the arguments here.  A row of such a frame
    is its [score] cell, a number or NaN, and the cells of its other
    columns. *)

Record csv_row : Type := mk_csv_row {
  other_columns : list cell;
  csv_score : cell
}.

(** [a == b] on two float64 cells: a comparison with NaN is false. *)
Definition cell_eq (a b : cell) : bool :=
  match a, b with
  | Some x, Some y => Qeq_bool x y
  | _, _ => false
  end.

(** [s1 == s2] on two columns with the default index: pandas compares
    only identically labelled columns, here columns of one length. *)
Definition series_eq (s1 s2 : list cell) : result (list bool) :=
  if (length s1 =? length s2)%nat then Ok (zip_with cell_eq s1 s2)
  else Raise ValueError.

(** The rows of the result keep their labels, the positions in
    [df1]. *)
Definition compare_files (df1 df2 : list csv_row) : result (list (nat * csv_row)) :=
  comparison <- series_eq (map csv_score df1) (map csv_score df2);;
  let differences :=
    mask_select (combine (seq 0 (length df1)) df1) (map negb comparison) in
  Ok differences.

(** ** Vocabulary of the further properties *)

(** A list cell that holds both one-character strings ["@"] and
    ["."]: it passes the two [in] tests and has no [startswith]. *)
Definition list_with_at_and_dot (o : pyobj) : Prop :=
  match o with
  | PyList items => In [at_sign] items /\ In [dot] items
  | _ => False
  end.

(** A frame of addresses of every kind: valid, invalid, and a list. *)
Definition sample_addresses : list row :=
  reset_index
   ([subject (num 30) None (PyStr (of_ascii "a@b.c")) [num 1; None; None; None; None];
   subject (num 31) None (PyStr (of_ascii "ab.c")) [num 1; None; None; None; None];
   subject (num 32) None (PyList [of_ascii "x"]) [num 1; None; None; None; None];
   subject (num 33) None (PyStr (of_ascii "d.@e")) [num 1; None; None; None; None]]).

(** Every given answer of the row lies between 0 and 255: no sum of
    the five leaves the range of [float64]. *)
Definition answers_in_range (r : row) : Prop :=
  Forall (fun c => match c with
                   | Some v => (0 <= v)%Q /\ (v <= 255 # 1)%Q
                   | None => True
                   end) (grades r).

(** Every given answer of the row lies between 0 and 255, and there
    is one. *)
Definition answers_in_uint8 (r : row) : Prop :=
  has_answer r /\ answers_in_range r.

(** A missing answer, or a whole number from 0 to 255.  On such
    answers the sums of [float64] are the exact ones, and a quotient
    by a count of at most five is rounded onto the same side of every
    whole number as the exact one. *)
Definition is_whole_answer (c : cell) : bool :=
  match c with
  | Some v =>
      Qeq_bool v (inject_Z (Qfloor v)) && Qle_bool (0 # 1) v && Qle_bool v (255 # 1)
  | None => true
  end.

(** Every given answer of the row is a whole number from 0 to 255,
    and there is one. *)
Definition whole_answers (r : row) : Prop :=
  has_answer r /\ forallb is_whole_answer (grades r) = true.

(** The score cell of a row whose mean was cast to [n]. *)
Definition score_cell (maximal_nans_per_sub : Z) (r : row) (n : Z) : UInt8 :=
  if count_na (grades r) >? maximal_nans_per_sub then NA else U8 n.

(** An age that the histogram counts: known, and from 0 to 100. *)
Definition age_in_range (x : cell) : bool :=
  match x with
  | Some v => Qle_bool (0 # 1) v && Qle_bool v (100 # 1)
  | None => false
  end.

Definition sample_scores : list csv_row :=
  [mk_csv_row [num 0] (num 5); mk_csv_row [num 1] None; mk_csv_row [num 2] (num 7)].

(** Two rows with the same score: both are numbers, and equal. *)
Definition same_score (r1 r2 : csv_row) : Prop :=
  exists x y, csv_score r1 = Some x /\ csv_score r2 = Some y /\ (x == y)%Q.

(** The bin of an age: the tens of the age, and the last bin for an
    age of 100. *)
Definition age_bin (v : Q) : Z := Z.min 9 (Qfloor (v / (10 # 1))).

(** The ages counted in bin [k]. *)
Definition in_age_bin (k : Z) (x : cell) : bool :=
  match x with
  | Some v => age_in_range x && (age_bin v =? k)
  | None => false
  end.

(** * Verification *)

(** ** Strings *)

Lemma str_contains_In (c : N) (s : str) : str_contains c s = true <-> In c s.
Proof.
  unfold str_contains. rewrite existsb_exists. split.
  - intros (x & Hx & E). apply N.eqb_eq in E. by subst.
  - intros H. exists c. split; [done | apply N.eqb_refl].
Qed.

Lemma str_startswith_head (c : N) (s : str) :
  str_startswith c s = true <-> head s = Some c.
Proof.
  destruct s as [|x s]; simpl; [split; discriminate|].
  rewrite N.eqb_eq. split; congruence.
Qed.

Lemma str_endswith_last (c : N) (s : str) :
  str_endswith c s = true <-> last s = Some c.
Proof.
  unfold str_endswith. destruct s as [|x s _] using rev_ind.
  - simpl. split; discriminate.
  - rewrite rev_app_distr, last_snoc. simpl.
    rewrite N.eqb_eq. split; congruence.
Qed.

Lemma str_isascii_Forall (s : str) :
  str_isascii s = true <-> Forall (fun c => (c < 128)%N) s.
Proof.
  unfold str_isascii. rewrite forallb_forall, Forall_forall.
  split; intros H x Hx.
  - apply N.ltb_lt, H. by apply list_elem_of_In.
  - apply N.ltb_lt, H. by apply list_elem_of_In.
Qed.

Lemma str_count_count_occ (c : N) (s : str) :
  str_count c s = Z.of_nat (count_occ N.eq_dec s c).
Proof.
  induction s as [|x s IH]; simpl; [done|].
  destruct (N.eq_dec x c) as [->|Hne].
  - rewrite N.eqb_refl. lia.
  - apply N.eqb_neq in Hne. rewrite Hne. lia.
Qed.

(** [find] returns the length of the part before the first occurrence. *)
Lemma str_find_split (c : N) (s : str) :
  In c s ->
  exists pre post,
    s = pre ++ c :: post /\ ~ In c pre /\ str_find c s = Z.of_nat (length pre).
Proof.
  induction s as [|x s IH]; simpl; [done|].
  intros Hin. destruct (N.eqb_spec x c) as [->|Hne].
  - exists [], s. simpl. auto.
  - destruct Hin as [?|Hin]; [done|].
    destruct (IH Hin) as (pre & post & -> & Hpre & Hf).
    exists (x :: pre), post. rewrite Hf. simpl. split; [done|]. split.
    + intros [?|?]; [done|]. by apply Hpre.
    + destruct (Z.ltb_spec (Z.of_nat (length pre)) 0); lia.
Qed.

Lemma str_getitem_after (pre post : str) (c : N) :
  str_getitem (pre ++ c :: post) (Z.of_nat (length pre) + 1) =
  match post with
  | [] => Raise IndexError
  | x :: _ => Ok x
  end.
Proof.
  unfold str_getitem. rewrite length_app. simpl length.
  destruct (Z.ltb_spec (Z.of_nat (length pre) + 1) 0); [lia|].
  destruct (Z.ltb_spec (Z.of_nat (length pre) + 1) 0); [lia|]. simpl.
  replace (Z.to_nat (Z.of_nat (length pre) + 1)) with (length pre + 1)%nat by lia.
  destruct post as [|x post]; simpl.
  - destruct (Z.leb_spec (Z.of_nat (length pre + 1)) (Z.of_nat (length pre) + 1)); [done|lia].
  - destruct (Z.leb_spec (Z.of_nat (length pre + S (S (length post))))
                         (Z.of_nat (length pre) + 1)); [lia|].
    rewrite nth_error_app2 by lia.
    replace (length pre + 1 - length pre)%nat with 1%nat by lia. done.
Qed.

Lemma count_occ_one_split (c : N) (pre post : str) :
  count_occ N.eq_dec (pre ++ c :: post) c = 1%nat -> ~ In c pre.
Proof.
  rewrite count_occ_app, count_occ_cons_eq by done.
  intros Hc Hin. apply (count_occ_In N.eq_dec) in Hin. lia.
Qed.

(** Two splits of a string at a character that occurs before neither
    cut are the same split. *)
Lemma first_split_unique (c : N) (pre pre' post post' : str) :
  pre ++ c :: post = pre' ++ c :: post' ->
  ~ In c pre -> ~ In c pre' -> pre = pre' /\ post = post'.
Proof.
  revert pre'. induction pre as [|x pre IH]; intros [|y pre']; simpl; intros E H H'.
  - by inversion E.
  - inversion E; subst. tauto.
  - inversion E; subst. tauto.
  - inversion E; subst. destruct (IH pre') as [-> ->]; tauto.
Qed.

(** On a string the six tests of [_validate_email] all evaluate, the
    index [find("@") + 1] is in range when it is reached, and the
    answer is the conjunction of the six conditions. *)
Lemma validate_email_str (s : str) :
  exists b, _validate_email (PyStr s) = Ok b /\ (b = true <-> valid_email s).
Proof.
  unfold _validate_email, lift, bind. cbn.
  destruct (str_contains at_sign s) eqn:Hat; cbn.
  2: { exists false. split; [done|]. split; [done|]. intros [[H _] _ _ _ _ _].
       apply str_contains_In in H. congruence. }
  destruct (str_contains dot s) eqn:Hdot; cbn.
  2: { exists false. split; [done|]. split; [done|]. intros [[_ H] _ _ _ _ _].
       apply str_contains_In in H. congruence. }
  destruct (str_startswith at_sign s) eqn:Hsa; cbn.
  { exists false. split; [done|]. split; [done|]. intros [_ [H _] _ _ _ _].
    apply str_startswith_head in Hsa. done. }
  destruct (str_endswith at_sign s) eqn:Hea; cbn.
  { exists false. split; [done|]. split; [done|]. intros [_ [_ H] _ _ _ _].
    apply str_endswith_last in Hea. done. }
  destruct (str_startswith dot s) eqn:Hsd; cbn.
  { exists false. split; [done|]. split; [done|]. intros [_ _ [H _] _ _ _].
    apply str_startswith_head in Hsd. done. }
  destruct (str_endswith dot s) eqn:Hed; cbn.
  { exists false. split; [done|]. split; [done|]. intros [_ _ [_ H] _ _ _].
    apply str_endswith_last in Hed. done. }
  destruct (str_isascii s) eqn:Hascii; cbn.
  2: { exists false. split; [done|]. split; [done|]. intros [_ _ _ H _ _].
       apply str_isascii_Forall in H. congruence. }
  destruct (Z.eqb_spec (str_count at_sign s) 1) as [Hone|Hone]; cbn.
  2: { exists false. split; [done|]. split; [done|]. intros [_ _ _ _ H _].
       rewrite str_count_count_occ in Hone. lia. }
  rewrite str_count_count_occ in Hone.
  apply str_contains_In in Hat, Hdot.
  destruct (str_find_split at_sign s Hat) as (pre & post & Es & Hpre & Hfind).
  rewrite Hfind, Es, str_getitem_after.
  destruct post as [|x post].
  { exfalso. rewrite Es in Hea.
    assert (str_endswith at_sign (pre ++ [at_sign]) = true) as H; [|congruence].
    apply str_endswith_last, last_snoc. }
  cbn. unfold str_eqb.
  assert (valid_email s <-> x <> dot) as Hiff.
  { split.
    - intros [_ _ _ _ _ H] ->. exact (H pre (dot :: post) Es eq_refl).
    - intros Hx. split; [done| | | | |].
      + split; intros H.
        * apply str_startswith_head in H. congruence.
        * apply str_endswith_last in H. congruence.
      + split; intros H.
        * apply str_startswith_head in H. congruence.
        * apply str_endswith_last in H. congruence.
      + by apply str_isascii_Forall.
      + lia.
      + intros pre' post' E. rewrite Es in E.
        assert (~ In at_sign pre') as Hpre'.
        { apply (count_occ_one_split _ _ post'). rewrite <- E, <- Es. lia. }
        destruct (first_split_unique _ _ _ _ _ E Hpre Hpre') as [_ <-].
        simpl. congruence. }
  rewrite <- Es. case_bool_decide as Hd.
  - exists false. split; [done|]. rewrite Hiff. split; [done|].
    intros Hx. exfalso. apply Hx. congruence.
  - exists true. split; [done|]. rewrite Hiff. split; [|done].
    intros _ ->. by apply Hd.
Qed.

(** C1. On a string, [_validate_email] never raises; it returns [True]
    on every string that satisfies the six conditions (an ['@'] and a
    ['.'] occur; neither end is ['@']; neither end is ['.']; every
    character is 7-bit; ['@'] occurs exactly once; the character after
    the ['@'] is not ['.']) and [False] on every string that violates
    one of them. *)
Theorem validate_email_iff (s : str) :
  (valid_email s -> _validate_email (PyStr s) = Ok true) /\
  (~ valid_email s -> _validate_email (PyStr s) = Ok false) /\
  (_validate_email (PyStr s) = Ok true -> valid_email s).
Proof.
  destruct (validate_email_str s) as (b & -> & Hb).
  destruct b.
  - split; [done|]. split; [|tauto]. intros Hn. exfalso. tauto.
  - split; [|split; [done|]].
    + intros Hv. apply Hb in Hv. discriminate.
    + intros [=].
Qed.

Example validate_email_accepts :
  _validate_email (PyStr (of_ascii "anna@mail.example.org")) = Ok true.
Proof. reflexivity. Qed.

Example validate_email_rejects :
  map (fun s => _validate_email (PyStr (of_ascii s)))
      ["anna.mail"; "anna@mail"; "@mail.org"; "anna.org@"; ".a@mail.org";
       "anna@mail."; "a@b@mail.org"; "anna@.org"; ""]%string
  = repeat (Ok false) 9.
Proof. reflexivity. Qed.

(** A character outside the 7-bit range (here U+00E9) is refused. *)
Example validate_email_rejects_non_ascii :
  _validate_email (PyStr (of_ascii "caf" ++ [233%N] ++ of_ascii "@mail.org")) = Ok false.
Proof. reflexivity. Qed.

(** ** [remove_rows_without_mail] *)

Lemma validate_email_not_iterable (v : pyobj) :
  not_iterable v -> _validate_email v = Raise TypeError.
Proof. by destruct v. Qed.

(** [apply] stops at the first cell that raises. *)
Lemma apply_validate_raises (cells : list pyobj) :
  Forall (fun v => is_str v \/ not_iterable v) cells ->
  Exists not_iterable cells ->
  apply _validate_email cells = Raise TypeError.
Proof.
  induction 1 as [|v cells Hv Hall IH]; intros Hex.
  - inversion Hex.
  - simpl. destruct Hv as [Hs|Hn].
    + destruct v; try done.
      destruct (validate_email_str s) as (b & -> & _). simpl.
      inversion Hex as [? ? Hn|? ? Hrest]; subst; [done|].
      by rewrite IH.
    + by rewrite validate_email_not_iterable.
Qed.

(** C6, as the code has it: a null email makes the validation raise
    [TypeError]; it is not classified as invalid, and
    [remove_rows_without_mail] raises with it. *)
Lemma null_email_raises :
  _validate_email PyNone = Raise TypeError /\
  _validate_email (PyFloat None) = Raise TypeError /\
  remove_rows_without_mail q
    (loaded [subject (num 30) None PyNone [num 1; num 2; num 3; num 4; num 5]])
  = Raise TypeError.
Proof. by repeat split. Qed.

(** C6, amended. On an email cell that is a string,
    [_validate_email] returns a boolean.  On one that is [None], NaN
    or another scalar that is not a string, it raises [TypeError] at
    its first test; on a frame whose email cells are strings or such
    values, with at least one such value, the exception leaves
    [remove_rows_without_mail]: no row is removed and nothing is
    returned. *)
Theorem non_string_email_raises (self : QuestionnaireAnalysis) (h : heap) :
  Forall (fun r => is_str (email r) \/ not_iterable (email r)) (frame h (data self)) ->
  Exists (fun r => not_iterable (email r)) (frame h (data self)) ->
  (forall r, In r (frame h (data self)) -> is_str (email r) ->
             exists b, _validate_email (email r) = Ok b) /\
  (forall r, In r (frame h (data self)) -> not_iterable (email r) ->
             _validate_email (email r) = Raise TypeError) /\
  remove_rows_without_mail self h = Raise TypeError.
Proof.
  intros Hall Hex. split; [|split].
  - intros r _ Hs. destruct (email r) as [| | | |s|]; try done.
    destruct (validate_email_str s) as (b & Hb & _). by exists b.
  - intros r _. apply validate_email_not_iterable.
  - unfold remove_rows_without_mail, and_then, get, eval.
    rewrite apply_validate_raises; [done| |].
    + by apply Forall_map.
    + by apply Exists_map.
Qed.

(** A frame with a valid address in its first row and a number for an
    address in its second. *)
Lemma non_string_email_raises_witness :
  remove_rows_without_mail q (loaded sample_mixed_emails) = Raise TypeError.
Proof.
  apply (non_string_email_raises q (loaded sample_mixed_emails)).
  - constructor; [left; exact I|].
    constructor; [right; exact I|]. constructor.
  - apply Exists_cons_tl, Exists_cons_hd. exact I.
Defined.

(** On a frame of strings the rows with a valid address are kept, in
    order and under new labels, and the frame of the object stays as
    it was. *)
Lemma remove_rows_of_strings (self : QuestionnaireAnalysis) (h : heap) :
  Forall (fun r => is_str (email r)) (frame h (data self)) ->
  exists kept,
    remove_rows_without_mail self h = Ok (kept, h) /\
    kept = reset_index (List.filter has_valid_email (frame h (data self))).
Proof.
  intros Hall. unfold remove_rows_without_mail, and_then, get, eval.
  assert (forall d, Forall (fun r => is_str (email r)) d ->
            exists valid, apply _validate_email (map email d) = Ok valid /\
              mask_select d valid = List.filter has_valid_email d)
    as Happ.
  { induction 1 as [|r d Hr _ (valid & Hv & Hm)]; [by exists []|].
    destruct (email r) as [| | | |s|] eqn:Es; try done.
    destruct (validate_email_str s) as (b & Hb & _).
    exists (b :: valid). cbn [map apply List.filter].
    unfold has_valid_email at 1. rewrite Es, Hb, Hv.
    split; [done|]. cbn [mask_select]. rewrite Hm. by destruct b. }
  destruct (Happ _ Hall) as (valid & -> & Hm).
  eexists. split; [reflexivity|]. by rewrite Hm.
Qed.

(** ** [_find_rows_with_nulls] *)

Lemma existsb_isna_grades (r : row) :
  existsb isna (grades r) = true <-> has_missing_answer r.
Proof.
  unfold has_missing_answer, grades. simpl.
  destruct (q1 r), (q2 r), (q3 r), (q4 r), (q5 r); simpl;
    split; intros H; try done; try tauto;
    repeat (destruct H as [H|H]; try done).
Qed.

(** Selecting by the mask of a test keeps what passes the test. *)
Lemma mask_select_map_filter {A B : Type} (f : A -> bool) (g : A -> B) (d : list A) :
  mask_select (map g d) (map f d) = map g (List.filter f d).
Proof.
  induction d as [|x d IH]; [done|].
  cbn [map mask_select List.filter]. rewrite IH. by destruct (f x).
Qed.

Lemma filter_ext_bool {A : Type} (f g : A -> bool) (d : list A) :
  (forall x, f x = g x) -> List.filter f d = List.filter g d.
Proof.
  intros H. induction d as [|x d IH]; [done|].
  cbn [List.filter]. by rewrite H, IH.
Qed.

(** The run of [_find_rows_with_nulls]: the labels of the rows with a
    missing answer, in the order of the rows. *)
Lemma find_rows_with_nulls_run (self : QuestionnaireAnalysis) (h : heap) :
  _find_rows_with_nulls self h
  = Ok (map label (List.filter (fun r => bool_decide (has_missing_answer r))
                               (frame h (data self))), h).
Proof.
  unfold _find_rows_with_nulls, and_then, get, ret. rewrite map_map.
  rewrite (mask_select_map_filter (fun r => existsb isna (grades r)) label).
  do 3 f_equal. apply filter_ext_bool. intros r.
  destruct (existsb isna (grades r)) eqn:E.
  - symmetry. apply bool_decide_eq_true. by apply existsb_isna_grades.
  - symmetry. apply bool_decide_eq_false. intros H.
    apply existsb_isna_grades in H. congruence.
Qed.

Lemma sorted_labels_filter (f : row -> bool) (d : list row) :
  StronglySorted lt (map label d) ->
  StronglySorted lt (map label (List.filter f d)).
Proof.
  induction d as [|r d IH]; [done|].
  cbn [map List.filter]. intros Hs.
  apply StronglySorted_inv in Hs as [Hs Hr].
  destruct (f r); [|by apply IH].
  cbn [map]. constructor; [by apply IH|].
  apply Forall_map. rewrite Forall_map in Hr.
  apply Forall_forall. intros x Hx. rewrite Forall_forall in Hr. apply Hr.
  apply list_elem_of_In. apply list_elem_of_In, filter_In in Hx. tauto.
Qed.

Lemma sorted_lt_NoDup (l : list nat) : StronglySorted lt l -> NoDup l.
Proof.
  induction 1 as [|x l Hs IH Hx]; constructor; [|done].
  intros Hin. rewrite Forall_forall in Hx. apply Hx in Hin. lia.
Qed.

(** C7, as the code has it: the labels come in the order of the rows
    of the frame.  On a frame whose rows are labelled 1 and 0 and both
    miss an answer, [_find_rows_with_nulls] returns [1, 0], which is
    not ascending. *)
Lemma find_rows_with_nulls_row_order :
  _find_rows_with_nulls q (loaded sample_reordered)
    = Ok ([1; 0]%nat, loaded sample_reordered) /\
  ~ StronglySorted lt [1; 0]%nat.
Proof.
  split; [reflexivity|]. intros H.
  apply StronglySorted_inv in H as [_ H]. inversion H; lia.
Qed.

(** C7, amended. [_find_rows_with_nulls] returns the index labels of
    the rows that miss at least one of [q1..q5], one entry for each
    such row, in the order of the rows, and leaves every frame of the
    store as it was.  When the labels of the frame are strictly
    ascending, as those of the default index [0..n-1] are, the
    returned labels are strictly ascending, each appearing once. *)
Theorem find_rows_with_nulls_labels (self : QuestionnaireAnalysis) (h : heap) :
  exists null_rows,
    _find_rows_with_nulls self h = Ok (null_rows, h) /\
    null_rows
    = map label (List.filter (fun r => bool_decide (has_missing_answer r))
                             (frame h (data self))) /\
    (forall l, In l null_rows <->
               exists r, In r (frame h (data self)) /\ label r = l /\
                         has_missing_answer r) /\
    (StronglySorted lt (map label (frame h (data self))) ->
     StronglySorted lt null_rows /\ NoDup null_rows).
Proof.
  rewrite find_rows_with_nulls_run. eexists. split; [reflexivity|].
  split; [reflexivity|]. split.
  - intros l. rewrite in_map_iff. split.
    + intros (r & Hl & Hr). apply filter_In in Hr as [Hr Hm].
      exists r. split; [done|]. split; [done|]. by apply bool_decide_eq_true in Hm.
    + intros (r & Hr & Hl & Hm). exists r. split; [done|].
      apply filter_In. split; [done|]. by apply bool_decide_eq_true.
  - intros Hs. pose proof (sorted_labels_filter
      (fun r => bool_decide (has_missing_answer r)) _ Hs) as Hs'.
    split; [done|]. by apply sorted_lt_NoDup.
Qed.

(** ** [_fill_na_with_mean] and [fill_na_with_mean] *)

Lemma nanmean_is_mean (xs : list cell) : is_mean_of (present xs) (nanmean xs).
Proof.
  unfold nanmean. destruct (present xs) as [|y ys]; [done|].
  unfold is_mean_of. rewrite Qred_correct.
  set (n := inject_Z (Z.of_nat (length (y :: ys)))).
  assert (~ (n == 0)%Q) as Hn.
  { unfold n. simpl length. intros H.
    apply (Qeq_bool_iff _ _) in H. discriminate. }
  field. exact Hn.
Qed.

Lemma filled_frame (d : list row) :
  where_ (map grades d) (map (map notnull) (map grades d))
         (map (fun m => repeat m 5) (map nanmean (map grades d)))
  = map (fun r => fill_row (grades r)) d.
Proof.
  induction d as [|r d IH]; [done|].
  cbn [map where_]. by rewrite IH.
Qed.

Lemma set_filled_grades (d : list row) :
  zip_with set_grades d (map (fun r => fill_row (grades r)) d) = filled_rows d.
Proof.
  unfold filled_rows. induction d as [|r d IH]; [done|].
  cbn [map zip_with]. by rewrite IH.
Qed.

Lemma grades_filled_rows (d : list row) :
  map grades (filled_rows d) = map (fun r => fill_row (grades r)) d.
Proof. unfold filled_rows. by rewrite map_map. Qed.

(** Filling a filled row changes nothing. *)
Lemma fill_row_idempotent (r : row) :
  fill_row (fill_row (grades r)) = fill_row (grades r).
Proof.
  unfold grades.
  destruct (q1 r), (q2 r), (q3 r), (q4 r), (q5 r); reflexivity.
Qed.

Lemma fill_row_complete (r : row) :
  has_answer r -> Forall (fun c => c <> None) (fill_row (grades r)).
Proof.
  intros (v & Hv). unfold grades in *.
  destruct (q1 r), (q2 r), (q3 r), (q4 r), (q5 r);
    try (repeat constructor; discriminate).
  simpl in Hv. repeat (destruct Hv as [Hv|Hv]; try discriminate). done.
Qed.

Lemma fill_row_cells (r : row) (j : nat) (c : cell) :
  nth_error (grades r) j = Some c ->
  nth_error (fill_row (grades r)) j =
  Some (match c with
        | Some v => Some v
        | None => nanmean (grades r)
        end).
Proof.
  unfold fill_row, grades.
  destruct j as [|[|[|[|[|j]]]]]; simpl; intros H;
    try (by destruct j); injection H as <-.
  - by destruct (q1 r).
  - by destruct (q2 r).
  - by destruct (q3 r).
  - by destruct (q4 r).
  - by destruct (q5 r).
Qed.

Lemma _fill_na_with_mean_run (self : QuestionnaireAnalysis) (h : heap) :
  _fill_na_with_mean self h
  = Ok (map (fun r => fill_row (grades r)) (frame h (data self)), h).
Proof.
  unfold _fill_na_with_mean, and_then, get, ret. by rewrite filled_frame.
Qed.

(** C3. [_fill_na_with_mean] gives, row for row, the five grades in
    which every given answer is kept and every missing answer is the
    mean of the row's given answers; a row without any answer stays
    without any. *)
Theorem fill_na_with_mean_rows (self : QuestionnaireAnalysis) (h : heap) :
  exists filled,
    _fill_na_with_mean self h = Ok (filled, h) /\
    length filled = length (frame h (data self)) /\
    forall i r, nth_error (frame h (data self)) i = Some r ->
      exists f,
        nth_error filled i = Some f /\
        length f = 5%nat /\
        (forall j v, nth_error (grades r) j = Some (Some v) ->
                     nth_error f j = Some (Some v)) /\
        (forall j, nth_error (grades r) j = Some None ->
                   exists m, nth_error f j = Some m /\
                             is_mean_of (present (grades r)) m) /\
        (all_missing r -> f = [None; None; None; None; None]).
Proof.
  rewrite _fill_na_with_mean_run.
  eexists. split; [reflexivity|]. split; [by rewrite length_map|].
  intros i r Hr. exists (fill_row (grades r)).
  split; [by rewrite nth_error_map, Hr|].
  split; [done|]. split; [|split].
  - intros j v Hj. by rewrite (fill_row_cells r j (Some v)).
  - intros j Hj. exists (nanmean (grades r)).
    split; [by rewrite (fill_row_cells r j None)|]. apply nanmean_is_mean.
  - unfold all_missing. by intros ->.
Qed.

Lemma frame_insert_eq (h : heap) (l : ref) (d : list row) :
  frame (<[l := d]> h) l = d.
Proof. unfold frame. by rewrite lookup_insert_eq. Qed.

Lemma frame_insert_ne (h : heap) (l l' : ref) (d : list row) :
  l <> l' -> frame (<[l := d]> h) l' = frame h l'.
Proof. intros H. unfold frame. by rewrite lookup_insert_ne. Qed.

Lemma fresh_unused (h : heap) : h !! fresh (dom h) = None.
Proof. apply not_elem_of_dom, is_fresh. Qed.

Lemma _find_rows_with_nulls_run (self : QuestionnaireAnalysis) (h : heap) :
  exists null_rows, _find_rows_with_nulls self h = Ok (null_rows, h).
Proof.
  unfold _find_rows_with_nulls, and_then, get, ret. eexists. reflexivity.
Qed.

(** The run of [fill_na_with_mean]: one new frame, holding the filled
    rows, is added to the store. *)
Lemma fill_na_with_mean_run (self : QuestionnaireAnalysis) (h : heap) :
  exists null_rows,
    _find_rows_with_nulls self h = Ok (null_rows, h) /\
    fill_na_with_mean self h
    = Ok ((fresh (dom h), null_rows),
          <[fresh (dom h) := filled_rows (frame h (data self))]> h).
Proof.
  destruct (_find_rows_with_nulls_run self h) as (null_rows & Hfind).
  exists null_rows. split; [done|].
  unfold fill_na_with_mean. unfold and_then at 1. rewrite Hfind.
  unfold and_then at 1. rewrite _fill_na_with_mean_run.
  unfold copy, set_grades_columns, and_then, get, new, put, ret.
  cbn zeta. by rewrite frame_insert_eq, set_filled_grades, insert_insert_eq.
Qed.

(** C8. [fill_na_with_mean] returns a new frame, in which the
    [q1..q5] columns are the filled ones and every other column, the
    number of rows and their order are those of [self.data], together
    with the labels that [_find_rows_with_nulls] finds in
    [self.data] before filling; [self.data] and every other frame of
    the store stay as they were. *)
Theorem fill_na_with_mean_frame (self : QuestionnaireAnalysis) (h : heap) :
  is_Some (h !! data self) ->
  exists updated_df null_rows filled h',
    fill_na_with_mean self h = Ok ((updated_df, null_rows), h') /\
    _find_rows_with_nulls self h = Ok (null_rows, h) /\
    _fill_na_with_mean self h = Ok (filled, h) /\
    h !! updated_df = None /\
    (forall l, l <> updated_df -> h' !! l = h !! l) /\
    frame h' (data self) = frame h (data self) /\
    map grades (frame h' updated_df) = filled /\
    length (frame h' updated_df) = length (frame h (data self)) /\
    forall i r, nth_error (frame h (data self)) i = Some r ->
      exists u,
        nth_error (frame h' updated_df) i = Some u /\
        age u = age r /\ gender u = gender r /\ email u = email r /\
        score u = score r.
Proof.
  intros Hdata.
  destruct (fill_na_with_mean_run self h) as (null_rows & Hfind & Hrun).
  exists (fresh (dom h)), null_rows. do 2 eexists.
  split; [exact Hrun|]. split; [exact Hfind|].
  split; [apply _fill_na_with_mean_run|].
  assert (data self <> fresh (dom h)) as Hne.
  { intros E. rewrite E, fresh_unused in Hdata. by destruct Hdata. }
  split; [apply fresh_unused|]. split; [|split; [|split; [|split]]].
  - intros l Hl. by rewrite lookup_insert_ne.
  - by rewrite frame_insert_ne.
  - rewrite frame_insert_eq. apply grades_filled_rows.
  - rewrite frame_insert_eq. unfold filled_rows. by rewrite length_map.
  - intros i r Hr. rewrite frame_insert_eq.
    unfold filled_rows. rewrite nth_error_map, Hr.
    eexists. split; [reflexivity|]. done.
Qed.

(** The frame [sample_answers], loaded into [q.data]. *)
Lemma fill_na_with_mean_frame_witness :
  exists updated_df null_rows filled h',
    fill_na_with_mean q (loaded sample_answers) = Ok ((updated_df, null_rows), h') /\
    _find_rows_with_nulls q (loaded sample_answers)
      = Ok (null_rows, loaded sample_answers) /\
    _fill_na_with_mean q (loaded sample_answers)
      = Ok (filled, loaded sample_answers) /\
    loaded sample_answers !! updated_df = None /\
    (forall l, l <> updated_df -> h' !! l = loaded sample_answers !! l) /\
    frame h' (data q) = frame (loaded sample_answers) (data q) /\
    map grades (frame h' updated_df) = filled /\
    length (frame h' updated_df) = length (frame (loaded sample_answers) (data q)) /\
    forall i r, nth_error (frame (loaded sample_answers) (data q)) i = Some r ->
      exists u,
        nth_error (frame h' updated_df) i = Some u /\
        age u = age r /\ gender u = gender r /\ email u = email r /\
        score u = score r.
Proof.
  apply (fill_na_with_mean_frame q (loaded sample_answers)).
  by eexists.
Defined.

(** C9. When every row has at least one answer, filling the frame
    that [fill_na_with_mean] returned gives the same grades as filling
    the first frame, and no cell of them is missing. *)
Theorem fill_na_with_mean_idempotent
    (self : QuestionnaireAnalysis) (h h' : heap)
    (updated_df : ref) (null_rows : list nat) (filled : list (list cell)) :
  Forall has_answer (frame h (data self)) ->
  _fill_na_with_mean self h = Ok (filled, h) ->
  fill_na_with_mean self h = Ok ((updated_df, null_rows), h') ->
  _fill_na_with_mean (mk_self (data_fname self) updated_df) h' = Ok (filled, h') /\
  Forall (Forall (fun c => c <> None)) filled.
Proof.
  intros Hans. rewrite _fill_na_with_mean_run. intros [= <-].
  destruct (fill_na_with_mean_run self h) as (nr & _ & ->). intros [= <- _ <-].
  split.
  - rewrite _fill_na_with_mean_run. cbn [data].
    rewrite frame_insert_eq. f_equal. f_equal.
    unfold filled_rows. rewrite map_map. apply map_ext. intros r.
    apply fill_row_idempotent.
  - apply Forall_map. eapply Forall_impl; [exact Hans|].
    intros r. apply fill_row_complete.
Qed.

(** [sample_answers] again: its filled frame is the second object of
    the store. *)
Lemma fill_na_with_mean_idempotent_witness :
  _fill_na_with_mean (mk_self (data_fname q) 2%positive)
    (<[2%positive := filled_rows sample_answers]> (loaded sample_answers))
  = Ok (sample_filled,
        <[2%positive := filled_rows sample_answers]> (loaded sample_answers)) /\
  Forall (Forall (fun c => c <> None)) sample_filled.
Proof.
  apply (fill_na_with_mean_idempotent q (loaded sample_answers) _ 2%positive [0; 1]%nat).
  - repeat constructor; eexists; simpl; eauto.
  - reflexivity.
  - reflexivity.
Defined.

(** ** [score_subjects] *)

Lemma Qtrunc_floor (m : Q) : (0 <= m)%Q -> Qtrunc m = Qfloor m.
Proof.
  destruct m as [n d]. unfold Qle, Qtrunc, Qfloor. simpl. intros H.
  apply Z.quot_div_nonneg; lia.
Qed.

Lemma Qfloor_uint8 (m : Q) :
  (0 <= m)%Q -> (m < 256 # 1)%Q -> cast_uint8 (Qtrunc m) = Qfloor m.
Proof.
  intros H0 H256. rewrite Qtrunc_floor by done.
  destruct m as [n d]. unfold Qle, Qlt, Qfloor in *. simpl in *.
  assert (0 <= n / Z.pos d < 256) as Hr.
  { split; [apply Z.div_pos; lia|apply Z.div_lt_upper_bound; lia]. }
  unfold cast_uint8. destruct (Z.ltb_spec (n / Z.pos d) (2 ^ 31)); [|lia].
  by apply Z.mod_small.
Qed.

Lemma mapM_means (d : list row) :
  Forall mean_in_uint8 d ->
  mapM id (map nanmean (map grades d))
  = Some (map (fun r => default (0 # 1)%Q (nanmean (grades r))) d).
Proof.
  induction 1 as [|r d (m & Hm & _) _ IH]; [done|].
  cbn [map mapM]. rewrite Hm, IH. done.
Qed.

Lemma astype_uint8_means (d : list row) :
  Forall mean_in_uint8 d ->
  astype_uint8 (map nanmean (map grades d))
  = Ok (map (fun r => Qfloor (default (0 # 1)%Q (nanmean (grades r)))) d).
Proof.
  intros Hd. unfold astype_uint8. rewrite mapM_means by done.
  assert (forallb (Qle_bool (0 # 1))
            (map (fun r => default (0 # 1)%Q (nanmean (grades r))) d) = true) as ->.
  { induction Hd as [|r d (m & Hm & H0 & _) _ IH]; [done|].
    cbn [map forallb]. rewrite Hm, IH. simpl.
    rewrite andb_true_r. by apply Qle_bool_iff. }
  f_equal. rewrite map_map.
  induction Hd as [|r d (m & Hm & H0 & H256) _ IH]; [done|].
  cbn [map]. rewrite IH, Hm. simpl. by rewrite Qfloor_uint8.
Qed.

Lemma score_and_mask (maximal_nans_per_sub : Z) (d : list row) (f : row -> Z) :
  Forall (fun r => nanmean (grades r) = Some (default (0 # 1)%Q (nanmean (grades r)))) d ->
  (forall r, f r = Qfloor (default (0 # 1)%Q (nanmean (grades r)))) ->
  zip_with (fun r (m : bool) => if m then set_score r NA else r)
    (zip_with set_score d (map U8 (map f d)))
    (map (fun g => count_na g >? maximal_nans_per_sub) (map grades d))
  = map (fun r => set_score r (row_score maximal_nans_per_sub r)) d.
Proof.
  intros Hd Hf. induction Hd as [|r d Hr _ IH]; [done|].
  cbn [map zip_with]. rewrite IH. f_equal.
  unfold row_score. rewrite Hr, Hf.
  by destruct (count_na (grades r) >? maximal_nans_per_sub).
Qed.

(** On a frame in which every row has an answer and a mean within the
    [uint8] range, [score_subjects] stores the score of the docstring
    in every row of [self.data], in place, and returns [self.data]. *)
Lemma score_subjects_in_range (self : QuestionnaireAnalysis)
    (maximal_nans_per_sub : Z) (h : heap) :
  Forall mean_in_uint8 (frame h (data self)) ->
  score_subjects self maximal_nans_per_sub h
  = Ok (data self,
        <[data self := map (fun r => set_score r (row_score maximal_nans_per_sub r))
                           (frame h (data self))]> h).
Proof.
  intros Hd. unfold score_subjects.
  unfold and_then at 1, get at 1. unfold and_then at 1, eval.
  rewrite astype_uint8_means by done. cbn [bind].
  unfold set_score_column, mask_score_column, and_then, get, put, ret.
  rewrite frame_insert_eq.
  rewrite (score_and_mask _ _ (fun r => Qfloor (default (0 # 1)%Q (nanmean (grades r))))).
  - by rewrite insert_insert_eq.
  - eapply Forall_impl; [exact Hd|]. by intros r (m & -> & _).
  - done.
Qed.

(** The mean of a row without answers is NaN, and the cast to [uint8]
    refuses a column that holds one. *)
Lemma astype_uint8_nan (xs : list cell) :
  In None xs -> astype_uint8 xs = Raise IntCastingNaNError.
Proof.
  intros Hin. unfold astype_uint8.
  assert (mapM id xs = None) as ->; [|done].
  induction xs as [|x xs IH]; [done|].
  destruct Hin as [->|Hin]; [done|].
  cbn [mapM]. rewrite (IH Hin). by destruct x.
Qed.

Lemma score_subjects_unanswered (self : QuestionnaireAnalysis)
    (maximal_nans_per_sub : Z) (h : heap) :
  Exists all_missing (frame h (data self)) ->
  score_subjects self maximal_nans_per_sub h = Raise IntCastingNaNError.
Proof.
  intros Hex. unfold score_subjects.
  unfold and_then at 1, get at 1. unfold and_then at 1, eval.
  rewrite astype_uint8_nan; [done|].
  apply Exists_exists in Hex as (r & Hr & Hall).
  apply in_map_iff. exists (grades r). split.
  - unfold all_missing in Hall. by rewrite Hall.
  - apply in_map. by apply list_elem_of_In.
Qed.

(** With five columns, a threshold of five or more masks no row. *)
Lemma threshold_five_masks_nothing (maximal_nans_per_sub : Z) (r : row) :
  5 <= maximal_nans_per_sub ->
  (count_na (grades r) >? maximal_nans_per_sub) = false.
Proof.
  intros H. rewrite Z.gtb_ltb. apply Z.ltb_ge.
  unfold count_na, grades.
  destruct (q1 r), (q2 r), (q3 r), (q4 r), (q5 r); simpl; lia.
Qed.

(** The row [2, 4, 6, 8, NA] with the default threshold: score 5, not
    masked; the row [2, 4, NA, NA, NA]: masked. *)
Example score_subjects_example :
  lift (fun res => map score (frame (snd res) (fst res)))
       (score_subjects q 1
          (loaded [subject None None PyNone [num 2; num 4; num 6; num 8; None];
                   subject None None PyNone [num 2; num 4; None; None; None]]))
  = Ok [Some (U8 5); Some NA].
Proof. reflexivity. Qed.

(** C2, at the failing input: with the default threshold, a frame
    that holds a row without any answer makes [score_subjects] raise
    in the cast to [uint8]; no row gets a score, where the docstring
    asks for NA in that row and the rounded mean in the others. *)
Theorem score_subjects_default_raises :
  map (row_score 1) sample_unanswered = [U8 5; NA] /\
  score_subjects q 1 (loaded sample_unanswered) = Raise IntCastingNaNError.
Proof. split; reflexivity. Qed.

(** C5, at the failing input: with a threshold of five the threshold
    rule masks no row, and a row without any answer makes
    [score_subjects] raise in the cast to [uint8] instead of giving
    that row the missing marker. *)
Theorem score_subjects_threshold_five_raises :
  (count_na (grades unanswered) >? 5) = false /\
  row_score 5 unanswered = NA /\
  score_subjects q 5 (loaded [unanswered]) = Raise IntCastingNaNError.
Proof. repeat split. Qed.

(** ** [correlate_gender_age] *)

(** A group holds, after what it held before, the grades of the rows
    with its key, in the order of the frame. *)
Lemma fold_groups_lookup (d : list row)
    (m : gmap (option str * bool) (list (list cell))) (k : option str * bool) :
  key_isna k = false ->
  fold_left group_step d m !! k =
  match keyed_grades k d with
  | [] => m !! k
  | gs => Some (default [] (m !! k) ++ gs)
  end.
Proof.
  intros Hk. revert m. induction d as [|r d IH]; intros m; [done|].
  cbn [fold_left]. rewrite IH. unfold keyed_grades. cbn [List.filter].
  unfold group_step. cbn zeta. case_bool_decide as Hr.
  - rewrite Hr, Hk. unfold add_to_group. rewrite lookup_insert_eq.
    cbn [map default].
    destruct (map grades _) as [|g gs]; [done|].
    unfold id. by rewrite <- app_assoc.
  - destruct (key_isna (group_key r)); [done|].
    unfold add_to_group. by rewrite lookup_insert_ne.
Qed.

(** A key with a missing level names no group. *)
Lemma fold_groups_lookup_na (d : list row)
    (m : gmap (option str * bool) (list (list cell))) (k : option str * bool) :
  key_isna k = true -> fold_left group_step d m !! k = m !! k.
Proof.
  intros Hk. revert m. induction d as [|r d IH]; intros m; [done|].
  cbn [fold_left]. rewrite IH. unfold group_step. cbn zeta.
  destruct (key_isna (group_key r)) eqn:Hr; [done|].
  unfold add_to_group. rewrite lookup_insert_ne; [done|].
  intros E. congruence.
Qed.

Lemma groupby_lookup (d : list row) (k : option str * bool) :
  groupby d !! k =
  if key_isna k then None
  else match keyed_grades k d with
       | [] => None
       | gs => Some gs
       end.
Proof.
  unfold groupby. destruct (key_isna k) eqn:Hk.
  - by rewrite (fold_groups_lookup_na d ∅ k Hk).
  - rewrite (fold_groups_lookup d ∅ k Hk), lookup_empty. done.
Qed.


Lemma over_40_lt (a : Q) : over_40 (Some a) = true <-> (40 # 1 < a)%Q.
Proof.
  unfold over_40. rewrite negb_true_iff, <- not_true_iff_false, Qle_bool_iff.
  split; [apply Qnot_le_lt|apply Qlt_not_le].
Qed.

Lemma in_bucket_key (g : str) (b : bool) (r : row) :
  in_bucket g b r =
  notnull (age r) && bool_decide (group_key r = (Some g, b)).
Proof.
  unfold in_bucket, group_key. destruct (age r) as [a|]; [|done].
  destruct (gender r) as [g'|]; cbn [notnull isna negb andb].
  2: { case_bool_decide; [discriminate|done]. }
  pose proof (over_40_lt a) as Ho.
  destruct (Qlt_le_dec (40 # 1) a) as [Hlt|Hle].
  - apply Ho in Hlt. rewrite Hlt.
    repeat case_bool_decide; simplify_eq; try done; by destruct b.
  - assert (over_40 (Some a) = false) as ->.
    { apply not_true_iff_false. intros H. apply Ho in H.
      by apply (Qlt_not_le _ _ H). }
    repeat case_bool_decide; simplify_eq; try done; by destruct b.
Qed.

Lemma keyed_bucket (d : list row) (g : str) (b : bool) :
  keyed_grades (Some g, b) (dropna_age d) = map grades (bucket d g b).
Proof.
  unfold keyed_grades, dropna_age, bucket. f_equal.
  induction d as [|r d IH]; [done|].
  cbn [List.filter]. rewrite in_bucket_key.
  destruct (notnull (age r)); cbn [List.filter andb]; by rewrite IH.
Qed.

Lemma group_mean_grades (rs : list row) :
  group_mean (map grades rs) = question_means rs.
Proof.
  unfold group_mean, question_means, column. cbn [seq map].
  by rewrite !map_map.
Qed.

(** The result of [correlate_gender_age], key by key. *)
Lemma correlate_lookup (self : QuestionnaireAnalysis) (h : heap)
    (k : option str * bool) :
  exists res,
    correlate_gender_age self h = Ok (res, h) /\
    res !! k =
    match k with
    | (Some g, b) =>
        match bucket (frame h (data self)) g b with
        | [] => None
        | rs => Some (question_means rs)
        end
    | (None, _) => None
    end.
Proof.
  unfold correlate_gender_age, and_then, get, ret.
  eexists. split; [reflexivity|].
  rewrite lookup_fmap, groupby_lookup. destruct k as [[g|] b]; [|done].
  cbn [key_isna fst]. rewrite keyed_bucket.
  destruct (bucket (frame h (data self)) g b) as [|r rs] eqn:Hb; [done|].
  rewrite <- group_mean_grades. done.
Qed.

(** The example of the report: women of 30 and 50 with [q1] 10 and 20
    make the two buckets [("F", False)] and [("F", True)] with [q1]
    means 10 and 20; the subject of unknown age makes none. *)
Example correlate_example :
  exists res,
    correlate_gender_age q (loaded sample_women) = Ok (res, loaded sample_women) /\
    size res = 2%nat /\
    res !! (Some (of_ascii "F"), false) = Some [num 10; num 1; num 1; num 1; num 1] /\
    res !! (Some (of_ascii "F"), true) = Some [num 20; num 2; num 2; num 2; num 2].
Proof.
  eexists. split.
  - unfold correlate_gender_age, and_then, get, ret. reflexivity.
  - by vm_compute.
Qed.

(** C4, as the code has it: a row of known age and unknown gender is
    not dropped for its age, and yet no bucket holds it. *)
Lemma correlate_drops_unknown_gender :
  dropna_age sample_no_gender = sample_no_gender /\
  correlate_gender_age q (loaded sample_no_gender) = Ok (∅, loaded sample_no_gender).
Proof. split; reflexivity. Qed.

(** C4, amended. [correlate_gender_age] leaves the store as it was
    and returns, for every gender [g] and boolean [b], a row exactly
    when some subject of known age has gender [g] and [age > 40] equal
    to [b]; the row holds the means of [q1] to [q5] over these
    subjects.  Subjects of unknown age or unknown gender are in no
    bucket. *)
Theorem correlate_gender_age_buckets (self : QuestionnaireAnalysis) (h : heap) :
  exists res,
    correlate_gender_age self h = Ok (res, h) /\
    (forall g b,
       res !! (Some g, b) =
       match bucket (frame h (data self)) g b with
       | [] => None
       | rs => Some (question_means rs)
       end) /\
    (forall b, res !! (None, b) = None).
Proof.
  destruct (correlate_lookup self h (None, true)) as (res & Hres & _).
  exists res. split; [done|]. split.
  - intros g b.
    destruct (correlate_lookup self h (Some g, b)) as (res' & Hres' & H).
    rewrite Hres in Hres'. by injection Hres' as <-.
  - intros b.
    destruct (correlate_lookup self h (None, b)) as (res' & Hres' & H).
    rewrite Hres in Hres'. by injection Hres' as <-.
Qed.

(** Rows of unknown gender add nothing to any group. *)
Lemma keyed_grades_has_gender (d : list row) (k : option str * bool) :
  key_isna k = false ->
  keyed_grades k (dropna_age (List.filter has_gender d))
  = keyed_grades k (dropna_age d).
Proof.
  intros Hk. unfold keyed_grades, dropna_age. f_equal.
  induction d as [|r d IH]; [done|].
  cbn [List.filter]. destruct (has_gender r) eqn:Hg.
  - cbn [List.filter]. destruct (notnull (age r)); [|done].
    cbn [List.filter]. by rewrite IH.
  - rewrite IH. destruct (notnull (age r)); [|done].
    cbn [List.filter]. case_bool_decide as Hr; [|done].
    exfalso. subst k. unfold key_isna, group_key, has_gender in *.
    cbn [fst] in Hk. by destruct (gender r).
Qed.

Lemma groupby_has_gender (d : list row) :
  groupby (dropna_age (List.filter has_gender d)) = groupby (dropna_age d).
Proof.
  apply map_eq. intros k. rewrite !groupby_lookup.
  destruct (key_isna k) eqn:Hk; [done|].
  by rewrite keyed_grades_has_gender.
Qed.

(** C10. [correlate_gender_age] leaves out every row of unknown
    gender, whatever its age: the result has no row under a key with a
    missing gender, and it is the result for the frame without these
    rows. *)
Theorem correlate_gender_age_skips_unknown_gender
    (self : QuestionnaireAnalysis) (h : heap) :
  exists res,
    correlate_gender_age self h = Ok (res, h) /\
    (forall b, res !! (None, b) = None) /\
    lift fst
      (correlate_gender_age self
         (<[data self := List.filter has_gender (frame h (data self))]> h))
    = Ok res.
Proof.
  unfold correlate_gender_age, and_then, get, ret.
  eexists. split; [reflexivity|]. split.
  - intros b. by rewrite lookup_fmap, groupby_lookup.
  - cbn [lift bind fst]. by rewrite frame_insert_eq, groupby_has_gender.
Qed.

(** * Further properties *)

(** ** Email validation and filtering *)

(** Only a string can be accepted. *)
Lemma validate_email_true_str (v : pyobj) :
  _validate_email v = Ok true -> exists s, v = PyStr s /\ valid_email s.
Proof.
  destruct v as [| | | |s|items]; try discriminate.
  - intros H. exists s. split; [done|].
    destruct (validate_email_str s) as (b & Hb & Hiff).
    rewrite Hb in H. injection H as ->. by apply Hiff.
  - unfold _validate_email, lift, bind. cbn.
    destruct (existsb (str_eqb [at_sign]) items); cbn; [|discriminate].
    destruct (existsb (str_eqb [dot]) items); cbn; discriminate.
Qed.

(** When [apply] returns, the mask it returns selects the rows with a
    valid address. *)
Lemma apply_validate_mask (d : list row) (valid : list bool) :
  apply _validate_email (map email d) = Ok valid ->
  mask_select d valid = List.filter has_valid_email d.
Proof.
  revert valid. induction d as [|r d IH]; intros valid; cbn [map apply].
  - by intros [= <-].
  - unfold has_valid_email at 1. cbn [List.filter].
    destruct (_validate_email (email r)) as [b|e] eqn:Hr; [|discriminate].
    cbn [bind]. destruct (apply _validate_email (map email d)) as [bs|e] eqn:Hd;
      [|discriminate].
    cbn [bind]. intros [= <-]. cbn [mask_select]. rewrite (IH bs eq_refl).
    by destruct b.
Qed.

Lemma relabel_email (d : list row) (ls : list nat) :
  length ls = length d -> map email (zip_with set_label d ls) = map email d.
Proof.
  revert ls. induction d as [|r d IH]; intros [|l ls]; try done.
  cbn. intros [= E]. by rewrite IH.
Qed.

Lemma relabel_labels (d : list row) (ls : list nat) :
  length ls = length d -> map label (zip_with set_label d ls) = ls.
Proof.
  revert ls. induction d as [|r d IH]; intros [|l ls]; try done.
  cbn. intros [= E]. by rewrite IH.
Qed.

Lemma relabel_In (d : list row) (ls : list nat) (r : row) :
  In r (zip_with set_label d ls) -> exists r0, In r0 d /\ r = set_label r0 (label r).
Proof.
  revert ls. induction d as [|r0 d IH]; intros [|l ls]; try done.
  cbn. intros [<-|Hin].
  - exists r0. split; [by left|]. by destruct r0.
  - destruct (IH ls Hin) as (r1 & H1 & E). exists r1. split; [by right|done].
Qed.

Lemma relabel_In_inv (d : list row) (ls : list nat) (r0 : row) :
  length ls = length d -> In r0 d -> exists l, In (set_label r0 l) (zip_with set_label d ls).
Proof.
  revert ls. induction d as [|r d IH]; intros [|l ls]; try done.
  cbn. intros [= E] [->|Hin].
  - exists l. by left.
  - destruct (IH ls E Hin) as (l' & H'). exists l'. by right.
Qed.

Lemma relabel_same_labels (d : list row) :
  zip_with set_label d (map label d) = d.
Proof.
  induction d as [|r d IH]; [done|]. cbn. rewrite IH. by destruct r.
Qed.

Lemma reset_index_length (d : list row) : length (reset_index d) = length d.
Proof.
  unfold reset_index. rewrite length_zip_with, length_seq. lia.
Qed.

Lemma reset_index_labels (d : list row) :
  map label (reset_index d) = seq 0 (length d).
Proof. apply relabel_labels. by rewrite length_seq. Qed.

Lemma reset_index_email (d : list row) :
  map email (reset_index d) = map email d.
Proof. apply relabel_email. by rewrite length_seq. Qed.

(** Resetting an index that is already [0..n-1] changes nothing. *)
Lemma reset_index_again (d : list row) :
  reset_index (reset_index d) = reset_index d.
Proof.
  unfold reset_index at 1. rewrite reset_index_length, <- reset_index_labels.
  apply relabel_same_labels.
Qed.

Lemma remove_rows_run (self : QuestionnaireAnalysis) (h h' : heap) (kept : list row) :
  remove_rows_without_mail self h = Ok (kept, h') ->
  h' = h /\ kept = reset_index (List.filter has_valid_email (frame h (data self))).
Proof.
  unfold remove_rows_without_mail, and_then, get, eval, ret.
  destruct (apply _validate_email (map email (frame h (data self))))
    as [valid|e] eqn:Hv; [|discriminate].
  cbn [bind]. intros [= <- <-]. split; [done|].
  by rewrite (apply_validate_mask _ _ Hv).
Qed.

Lemma has_valid_email_str (r : row) :
  has_valid_email r = true <-> exists s, email r = PyStr s /\ valid_email s.
Proof.
  unfold has_valid_email. split.
  - intros Hv. apply validate_email_true_str.
    destruct (_validate_email (email r)) as [[|]|]; done.
  - intros (s & Hs & Hv). rewrite Hs.
    destruct (validate_email_str s) as (b & -> & Hb).
    apply Hb in Hv. by rewrite Hv.
Qed.

(** X1. Whenever [remove_rows_without_mail] returns, it returns the
    rows of [self.data] whose email is a string that meets the six
    conditions, in their order and with the labels [0..n-1] that
    [reset_index(drop=True)] gives them, and no frame of the store has
    changed: every row returned is a row of [self.data] with a valid
    address, up to its label, and every row of [self.data] with a
    valid address is returned under some label. *)
Theorem remove_rows_keeps_valid (self : QuestionnaireAnalysis) (h h' : heap)
    (kept : list row) :
  remove_rows_without_mail self h = Ok (kept, h') ->
  h' = h /\
  kept = reset_index (List.filter has_valid_email (frame h (data self))) /\
  map label kept = seq 0 (length kept) /\
  (forall r, In r kept ->
     (exists r0, In r0 (frame h (data self)) /\ r = set_label r0 (label r)) /\
     exists s, email r = PyStr s /\ valid_email s) /\
  (forall r0, In r0 (frame h (data self)) ->
     (exists s, email r0 = PyStr s /\ valid_email s) ->
     exists l, In (set_label r0 l) kept).
Proof.
  intros Hrun. destruct (remove_rows_run self h h' kept Hrun) as [-> ->].
  split; [done|]. split; [done|].
  split; [by rewrite reset_index_labels, reset_index_length|]. split.
  - intros r Hin. destruct (relabel_In _ _ _ Hin) as (r0 & H0 & E).
    apply filter_In in H0 as [H0 Hv]. split; [by exists r0|].
    apply has_valid_email_str in Hv as (s & Hs & Hv).
    exists s. split; [|done]. rewrite E. by destruct r0.
  - intros r0 Hin Hv. apply relabel_In_inv; [by rewrite length_seq|].
    apply filter_In. split; [done|]. by apply has_valid_email_str.
Qed.

Lemma remove_rows_keeps_valid_witness :
  loaded sample_addresses = loaded sample_addresses /\
  [set_label (subject (num 30) None (PyStr (of_ascii "a@b.c")) [num 1; None; None; None; None]) 0;
   set_label (subject (num 33) None (PyStr (of_ascii "d.@e")) [num 1; None; None; None; None]) 1]
  = reset_index (List.filter has_valid_email (frame (loaded sample_addresses) (data q))) /\
  map label
    [set_label (subject (num 30) None (PyStr (of_ascii "a@b.c")) [num 1; None; None; None; None]) 0;
     set_label (subject (num 33) None (PyStr (of_ascii "d.@e")) [num 1; None; None; None; None]) 1]
  = seq 0 2 /\
  (forall r,
     In r [set_label (subject (num 30) None (PyStr (of_ascii "a@b.c")) [num 1; None; None; None; None]) 0;
           set_label (subject (num 33) None (PyStr (of_ascii "d.@e")) [num 1; None; None; None; None]) 1] ->
     (exists r0, In r0 (frame (loaded sample_addresses) (data q)) /\ r = set_label r0 (label r)) /\
     exists s, email r = PyStr s /\ valid_email s) /\
  (forall r0, In r0 (frame (loaded sample_addresses) (data q)) ->
     (exists s, email r0 = PyStr s /\ valid_email s) ->
     exists l,
       In (set_label r0 l)
          [set_label (subject (num 30) None (PyStr (of_ascii "a@b.c")) [num 1; None; None; None; None]) 0;
           set_label (subject (num 33) None (PyStr (of_ascii "d.@e")) [num 1; None; None; None; None]) 1]).
Proof.
  apply (remove_rows_keeps_valid q (loaded sample_addresses)).
  reflexivity.
Defined.

Lemma apply_validate_all_valid (d : list row) :
  Forall (fun r => has_valid_email r = true) d ->
  exists valid,
    apply _validate_email (map email d) = Ok valid /\ mask_select d valid = d.
Proof.
  induction 1 as [|r d Hr _ (valid & Hv & Hm)]; [by exists []|].
  unfold has_valid_email in Hr.
  destruct (_validate_email (email r)) as [[|]|] eqn:Er; try discriminate.
  exists (true :: valid). cbn [map apply]. rewrite Er, Hv. cbn [bind mask_select].
  by rewrite Hm.
Qed.

(** X2. When [remove_rows_without_mail] has returned the frame
    [kept], running it on an object whose frame is [kept] returns
    [kept] again: every address that is left is valid. *)
Theorem remove_rows_round_trip (self : QuestionnaireAnalysis) (h h' : heap)
    (kept : list row) :
  remove_rows_without_mail self h = Ok (kept, h') ->
  remove_rows_without_mail self (<[data self := kept]> h)
  = Ok (kept, <[data self := kept]> h).
Proof.
  intros Hrun. destruct (remove_rows_run self h h' kept Hrun) as [_ Hk].
  assert (Forall (fun r => has_valid_email r = true) kept) as Hall.
  { rewrite Hk. apply Forall_forall. intros r Hr.
    apply list_elem_of_In, relabel_In in Hr as (r0 & H0 & E).
    apply filter_In in H0 as [_ Hv]. rewrite E.
    unfold has_valid_email in *. by destruct r0. }
  destruct (apply_validate_all_valid kept Hall) as (valid & Hv & Hm).
  unfold remove_rows_without_mail, and_then, get, eval, ret.
  rewrite frame_insert_eq, Hv. cbn [bind]. rewrite Hm, Hk.
  by rewrite reset_index_again.
Qed.

Lemma remove_rows_round_trip_witness :
  remove_rows_without_mail q
    (<[data q := reset_index (List.filter has_valid_email sample_addresses)]>
       (loaded sample_addresses))
  = Ok (reset_index (List.filter has_valid_email sample_addresses),
        <[data q := reset_index (List.filter has_valid_email sample_addresses)]>
          (loaded sample_addresses)).
Proof.
  apply (remove_rows_round_trip q (loaded sample_addresses) (loaded sample_addresses)).
  reflexivity.
Defined.

Lemma existsb_str_eqb (c : N) (items : list str) :
  existsb (str_eqb [c]) items = true <-> In [c] items.
Proof.
  rewrite existsb_exists. unfold str_eqb. split.
  - intros (x & Hx & E). apply bool_decide_eq_true in E. by subst.
  - intros H. exists [c]. split; [done|]. by apply bool_decide_eq_true.
Qed.

(** X3. [_validate_email] raises only in two ways: [TypeError] on
    [None] and on the scalars that are not strings, [AttributeError]
    on a list that holds both ["@"] and ["."]; a list without one of
    them is classified invalid.  It never raises [IndexError]: the
    index [find("@") + 1] is only reached on a string that does not
    end in ['@']. *)
Theorem validate_email_exceptions (v : pyobj) :
  (forall e, _validate_email v = Raise e ->
     (e = TypeError /\ not_iterable v) \/
     (e = AttributeError /\ list_with_at_and_dot v)) /\
  (not_iterable v -> _validate_email v = Raise TypeError) /\
  (list_with_at_and_dot v -> _validate_email v = Raise AttributeError) /\
  (forall items, v = PyList items -> ~ list_with_at_and_dot v ->
     _validate_email v = Ok false).
Proof.
  destruct v as [| | | |s|items].
  1-4: (split; [intros e [= <-]; left; by split|]);
       (split; [done|]); (split; [done|]); intros; discriminate.
  - split.
    + intros e H. destruct (validate_email_str s) as (b & Hb & _). congruence.
    + split; [done|]. split; [done|]. intros; discriminate.
  - unfold _validate_email, lift, bind. cbn.
    destruct (existsb (str_eqb [at_sign]) items) eqn:Ha; cbn.
    + destruct (existsb (str_eqb [dot]) items) eqn:Hd; cbn.
      * apply existsb_str_eqb in Ha, Hd.
        split; [intros e [= <-]; right; by repeat split|].
        split; [done|]. split; [done|]. intros items' [= <-] Hn. tauto.
      * split; [discriminate|]. split; [done|]. split; [|done].
        intros [_ H]. apply existsb_str_eqb in H. congruence.
    + split; [discriminate|]. split; [done|]. split; [|done].
      intros [H _]. apply existsb_str_eqb in H. congruence.
Qed.

(** X4. An accepted address has the shape [local@domain] with a
    local part and a domain that are not empty and hold no ['@'], and
    it has at least four characters. *)
Theorem accepted_address_shape (s : str) :
  _validate_email (PyStr s) = Ok true ->
  exists local domain,
    s = local ++ at_sign :: domain /\
    local <> [] /\ domain <> [] /\
    ~ In at_sign local /\ ~ In at_sign domain /\
    (4 <= length s)%nat.
Proof.
  intros H. destruct (validate_email_str s) as (b & Hb & Hiff).
  rewrite Hb in H. injection H as ->.
  destruct (proj1 Hiff eq_refl) as [[Hat Hdot] [Hh Hl] [Hhd Hld] _ Hone Hafter].
  destruct (in_split _ _ Hat) as (local & domain & ->).
  exists local, domain. split; [done|].
  assert (local <> []) as Hlocal by (intros ->; by apply Hh).
  assert (domain <> []) as Hdomain.
  { intros ->. apply Hl. apply last_snoc. }
  assert (~ In at_sign local) as Hnl by (by apply (count_occ_one_split _ _ domain)).
  assert (~ In at_sign domain) as Hnd.
  { rewrite count_occ_app, count_occ_cons_eq in Hone by done.
    intros Hin. apply (count_occ_In N.eq_dec) in Hin. lia. }
  do 4 (split; [done|]).
  rewrite length_app. cbn [length].
  apply in_app_or in Hdot as [Hd|Hd].
  - destruct local as [|x [|y local]]; [done| |simpl; destruct domain; [done|simpl; lia]].
    exfalso. destruct Hd as [->|[]]. by apply Hhd.
  - destruct Hd as [Hd|Hd]; [discriminate|].
    pose proof (Hafter local domain eq_refl) as Hfirst.
    destruct domain as [|x [|y [|z domain]]]; [done| | |simpl; lia].
    + exfalso. destruct Hd as [->|[]]. by apply Hfirst.
    + exfalso. destruct Hd as [->|[->|[]]]; [by apply Hfirst|].
      apply Hld. replace (local ++ at_sign :: [x; dot]) with ((local ++ [at_sign; x]) ++ [dot]).
      * apply last_snoc.
      * by rewrite <- app_assoc.
Qed.

Lemma accepted_address_shape_witness :
  exists local domain,
    of_ascii "d.@e" = local ++ at_sign :: domain /\
    local <> [] /\ domain <> [] /\
    ~ In at_sign local /\ ~ In at_sign domain /\
    (4 <= length (of_ascii "d.@e"))%nat.
Proof.
  apply (accepted_address_shape (of_ascii "d.@e")). reflexivity.
Defined.

(** ** Locating and filling missing answers *)

Lemma find_rows_with_nulls_In (self : QuestionnaireAnalysis) (h h' : heap)
    (null_rows : list nat) (l : nat) :
  _find_rows_with_nulls self h = Ok (null_rows, h') ->
  In l null_rows <->
  exists r, In r (frame h (data self)) /\ label r = l /\ has_missing_answer r.
Proof.
  rewrite find_rows_with_nulls_run. intros [= <- _].
  rewrite in_map_iff. split.
  - intros (r & <- & Hr). apply filter_In in Hr as [Hin Hm].
    apply bool_decide_eq_true in Hm. by exists r.
  - intros (r & Hin & <- & Hm). exists r. split; [done|].
    apply filter_In. split; [done|]. by apply bool_decide_eq_true.
Qed.

Lemma fill_complete_row (r : row) :
  ~ has_missing_answer r -> set_grades r (fill_row (grades r)) = r.
Proof.
  unfold has_missing_answer. destruct r as [lb a g e c1 c2 c3 c4 c5 sc]. cbn.
  destruct c1, c2, c3, c4, c5; intros H; try done; exfalso; apply H; tauto.
Qed.

Lemma filled_row_complete (r : row) :
  has_answer r -> ~ has_missing_answer (set_grades r (fill_row (grades r))).
Proof.
  intros Hans Hmiss. apply existsb_isna_grades in Hmiss.
  pose proof (fill_row_complete r Hans) as Hc.
  change (grades (set_grades r (fill_row (grades r)))) with (fill_row (grades r)) in Hmiss.
  apply existsb_exists in Hmiss as (c & Hin & Hna).
  rewrite Forall_forall in Hc. apply list_elem_of_In, Hc in Hin.
  by destruct c.
Qed.

Lemma filled_row_label (r : row) :
  label (set_grades r (fill_row (grades r))) = label r.
Proof. by destruct r. Qed.

Lemma unique_label (d : list row) (r r' : row) :
  NoDup (map label d) -> In r d -> In r' d -> label r = label r' -> r = r'.
Proof.
  induction d as [|x d IH]; [done|]. cbn [map]. intros Hnd.
  apply NoDup_cons in Hnd as [Hx Hnd].
  assert (forall y, In y d -> label x <> label y) as Hfresh.
  { intros y Hy E. apply Hx, list_elem_of_In. rewrite E. by apply in_map. }
  intros [<-|Hr] [<-|Hr'] E; [done| | |by apply IH].
  - by destruct (Hfresh _ Hr').
  - by destruct (Hfresh _ Hr).
Qed.

(** X5. The labels that [fill_na_with_mean] returns are those of
    the rows it has changed, in a frame whose index holds no label
    twice: every row is in the new frame at its position and under its
    label; a row whose label is not returned is there as it was, and a
    row whose label is returned and that has an answer is there with
    new grades and without a missing one. *)
Theorem fill_changes_null_rows (self : QuestionnaireAnalysis) (h h' : heap)
    (updated_df : ref) (null_rows : list nat) (i : nat) (r : row) :
  fill_na_with_mean self h = Ok ((updated_df, null_rows), h') ->
  NoDup (map label (frame h (data self))) ->
  nth_error (frame h (data self)) i = Some r ->
  exists u,
    nth_error (frame h' updated_df) i = Some u /\
    label u = label r /\
    (~ In (label r) null_rows -> u = r) /\
    (In (label r) null_rows -> has_answer r -> u <> r /\ ~ has_missing_answer u).
Proof.
  destruct (fill_na_with_mean_run self h) as (nr & Hfind & ->).
  intros [= <- <- <-] Hnd Hr. rewrite frame_insert_eq.
  exists (set_grades r (fill_row (grades r))).
  split; [unfold filled_rows; by rewrite nth_error_map, Hr|].
  split; [apply filled_row_label|].
  pose proof (find_rows_with_nulls_In self h h nr (label r) Hfind) as Hin.
  pose proof (nth_error_In _ _ Hr) as Hrin.
  split.
  - intros Hn. apply fill_complete_row. intros Hm. apply Hn, Hin. eauto.
  - intros Hi Hans. pose proof (filled_row_complete r Hans) as Hc.
    split; [|done]. intros E. rewrite E in Hc. apply Hc.
    apply Hin in Hi as (r' & Hr' & El & Hm).
    by rewrite <- (unique_label _ _ _ Hnd Hr' Hrin El).
Qed.

Lemma fill_changes_null_rows_witness :
  exists u,
    nth_error (frame (<[2%positive := filled_rows sample_reordered]> (loaded sample_reordered))
                     2%positive) 1 = Some u /\
    label u = 0%nat /\
    (~ In 0%nat [1; 0]%nat ->
     u = set_label (subject (num 50) (Some (of_ascii "M")) (PyStr (of_ascii "c@d.e"))
                      [num 2; None; num 4; num 4; num 4]) 0) /\
    (In 0%nat [1; 0]%nat ->
     has_answer (set_label (subject (num 50) (Some (of_ascii "M")) (PyStr (of_ascii "c@d.e"))
                              [num 2; None; num 4; num 4; num 4]) 0) ->
     u <> set_label (subject (num 50) (Some (of_ascii "M")) (PyStr (of_ascii "c@d.e"))
                       [num 2; None; num 4; num 4; num 4]) 0 /\
     ~ has_missing_answer u).
Proof.
  apply (fill_changes_null_rows q (loaded sample_reordered)
           (<[2%positive := filled_rows sample_reordered]> (loaded sample_reordered))
           2%positive [1; 0]%nat 1
           (set_label (subject (num 50) (Some (of_ascii "M")) (PyStr (of_ascii "c@d.e"))
                         [num 2; None; num 4; num 4; num 4]) 0)).
  - reflexivity.
  - apply (bool_decide_unpack _). reflexivity.
  - reflexivity.
Defined.

(** X6. After [fill_na_with_mean], [_find_rows_with_nulls] on the
    new frame finds exactly the labels of the rows that had no answer
    at all: with an answer in every row it finds none. *)
Theorem find_nulls_after_fill (self : QuestionnaireAnalysis) (h h' : heap)
    (updated_df : ref) (null_rows : list nat) :
  fill_na_with_mean self h = Ok ((updated_df, null_rows), h') ->
  exists still_null,
    _find_rows_with_nulls (mk_self (data_fname self) updated_df) h'
      = Ok (still_null, h') /\
    (forall l, In l still_null <->
               exists r, In r (frame h (data self)) /\ label r = l /\ all_missing r) /\
    (Forall has_answer (frame h (data self)) -> still_null = []).
Proof.
  destruct (fill_na_with_mean_run self h) as (nr & Hfind & ->).
  intros [= <- <- <-].
  set (h' := <[fresh (dom h) := filled_rows (frame h (data self))]> h).
  set (self' := mk_self (data_fname self) (fresh (dom h))).
  destruct (_find_rows_with_nulls_run self' h') as (still & Hstill).
  exists still. split; [done|].
  assert (forall l, In l still <->
            exists r, In r (frame h (data self)) /\ label r = l /\ all_missing r) as Hchar.
  { intros l. rewrite (find_rows_with_nulls_In self' h' h' still l Hstill).
    unfold self', h'. cbn [data]. rewrite frame_insert_eq. unfold filled_rows.
    split.
    - intros (u & Hu & Hl & Hm). apply in_map_iff in Hu as (r & <- & Hr).
      exists r. split; [done|]. rewrite filled_row_label in Hl. split; [done|].
      unfold all_missing, has_missing_answer, grades in *.
      destruct r as [lb a g e c1 c2 c3 c4 c5 sc]. cbn in *.
      destruct c1, c2, c3, c4, c5; cbn in Hm; try done;
        repeat (destruct Hm as [Hm|Hm]; try discriminate).
    - intros (r & Hr & Hl & Hall). exists (set_grades r (fill_row (grades r))).
      split; [by apply (in_map (fun r => set_grades r (fill_row (grades r))))|].
      split; [by rewrite filled_row_label|].
      unfold all_missing in Hall. rewrite Hall. left. reflexivity. }
  split; [done|]. intros Hans.
  destruct still as [|l still]; [done|]. exfalso.
  destruct (proj1 (Hchar l) (or_introl eq_refl)) as (r & Hr & _ & Hall).
  rewrite Forall_forall in Hans.
  destruct (Hans r) as (v & Hv).
  - by apply list_elem_of_In.
  - unfold all_missing in Hall. rewrite Hall in Hv. simpl in Hv.
    repeat (destruct Hv as [Hv|Hv]; try discriminate). done.
Qed.

Lemma find_nulls_after_fill_witness :
  exists still_null,
    _find_rows_with_nulls (mk_self (data_fname q) 2%positive)
      (<[2%positive := filled_rows sample_unanswered]> (loaded sample_unanswered))
      = Ok (still_null,
            <[2%positive := filled_rows sample_unanswered]> (loaded sample_unanswered)) /\
    (forall l, In l still_null <->
               exists r, In r (frame (loaded sample_unanswered) (data q)) /\ label r = l /\
                         all_missing r) /\
    (Forall has_answer (frame (loaded sample_unanswered) (data q)) -> still_null = []).
Proof.
  apply (find_nulls_after_fill q (loaded sample_unanswered) _ 2%positive [0; 1]%nat).
  reflexivity.
Defined.

(** ** Scoring *)

Lemma Qsum_bounds (ys : list Q) :
  Forall (fun y => (0 <= y)%Q /\ (y <= 255 # 1)%Q) ys ->
  (0 <= Qsum ys)%Q /\
  (Qsum ys <= (255 # 1) * inject_Z (Z.of_nat (length ys)))%Q.
Proof.
  induction 1 as [|y ys [Hy0 Hy] _ [IH0 IH]]; [split; simpl; by compute|].
  cbn [Qsum fold_right length]. fold (Qsum ys). split.
  - change (0 # 1)%Q with (0 + 0)%Q at 1. by apply Qplus_le_compat.
  - rewrite Nat2Z.inj_succ, <- Z.add_1_l, inject_Z_plus.
    setoid_replace ((255 # 1) * (inject_Z 1 + inject_Z (Z.of_nat (length ys))))%Q
      with ((255 # 1) + (255 # 1) * inject_Z (Z.of_nat (length ys)))%Q
      using relation Qeq by ring.
    by apply Qplus_le_compat.
Qed.

Lemma present_in_range (xs : list cell) :
  Forall (fun c => match c with
                   | Some v => (0 <= v)%Q /\ (v <= 255 # 1)%Q
                   | None => True
                   end) xs ->
  Forall (fun y => (0 <= y)%Q /\ (y <= 255 # 1)%Q) (present xs).
Proof.
  unfold present. induction 1 as [|c xs Hc _ IH]; [constructor|].
  destruct c as [v|]; cbn; [by constructor|done].
Qed.

Lemma has_answer_present (r : row) : has_answer r -> present (grades r) <> [].
Proof.
  intros (v & Hv). unfold grades, present in *.
  destruct (q1 r), (q2 r), (q3 r), (q4 r), (q5 r); cbn; try done.
  simpl in Hv. repeat (destruct Hv as [Hv|Hv]; try discriminate). done.
Qed.

Lemma answers_mean_in_uint8 (r : row) : answers_in_uint8 r -> mean_in_uint8 r.
Proof.
  intros [Hans Hrange]. unfold answers_in_range in Hrange.
  unfold mean_in_uint8, nanmean.
  pose proof (has_answer_present r Hans) as Hne.
  apply present_in_range, Qsum_bounds in Hrange as [H0 H255].
  destruct (present (grades r)) as [|y ys] eqn:Hp; [done|].
  eexists. split; [reflexivity|]. rewrite Qred_correct.
  set (n := inject_Z (Z.of_nat (length (y :: ys)))) in *.
  assert (0 < n)%Q as Hn.
  { unfold n. rewrite <- (Zlt_Qlt 0). simpl length. lia. }
  split.
  - apply Qle_shift_div_l; [done|]. by rewrite Qmult_0_l.
  - apply Qle_lt_trans with (255 # 1)%Q; [|done].
    by apply Qle_shift_div_r.
Qed.

Lemma whole_answers_in_uint8 (r : row) : whole_answers r -> answers_in_uint8 r.
Proof.
  intros [Hans Hwhole]. split; [done|]. unfold answers_in_range.
  rewrite forallb_forall in Hwhole. apply Forall_forall. intros c Hc.
  apply list_elem_of_In, Hwhole in Hc. destruct c as [v|]; [|done].
  cbn [is_whole_answer] in Hc. apply andb_prop in Hc as [Hc H255].
  apply andb_prop in Hc as [_ H0]. by split; apply Qle_bool_iff.
Qed.

(** X7. On a frame in which every row has an answer and every
    given answer is a whole number from 0 to 255, [score_subjects]
    assigns in place, to every row of [self.data], NA when more than
    [maximal_nans_per_sub] answers are missing and otherwise the mean
    of the given answers rounded down, and it returns [self.data]
    itself. *)
Theorem score_subjects_scores (self : QuestionnaireAnalysis)
    (maximal_nans_per_sub : Z) (h : heap) :
  Forall whole_answers (frame h (data self)) ->
  score_subjects self maximal_nans_per_sub h
  = Ok (data self,
        <[data self := map (fun r => set_score r (row_score maximal_nans_per_sub r))
                           (frame h (data self))]> h).
Proof.
  intros Hd. apply score_subjects_in_range.
  eapply Forall_impl; [exact Hd|].
  intros r Hr. by apply answers_mean_in_uint8, whole_answers_in_uint8.
Qed.

Lemma score_subjects_scores_witness :
  score_subjects q 1 (loaded sample_answers)
  = Ok (data q,
        <[data q := map (fun r => set_score r (row_score 1 r))
                        (frame (loaded sample_answers) (data q))]>
          (loaded sample_answers)).
Proof.
  apply (score_subjects_scores q 1 (loaded sample_answers)).
  repeat constructor; eexists; simpl; eauto.
Defined.

Lemma nanmean_None_all_missing (r : row) :
  nanmean (grades r) = None <-> all_missing r.
Proof.
  unfold all_missing, nanmean, present, grades.
  destruct (q1 r), (q2 r), (q3 r), (q4 r), (q5 r); cbn; split; done.
Qed.

Lemma astype_uint8_nan_inv (xs : list cell) :
  astype_uint8 xs = Raise IntCastingNaNError -> In None xs.
Proof.
  unfold astype_uint8. destruct (mapM id xs) as [qs|] eqn:Hm.
  - by destruct (forallb (Qle_bool (0 # 1)) qs).
  - intros _. induction xs as [|x xs IH]; [done|].
    destruct x as [v|]; [|by left]. right. apply IH.
    cbn [mapM] in Hm. by destruct (mapM id xs).
Qed.

Lemma not_all_missing (r : row) : ~ all_missing r -> has_answer r.
Proof.
  unfold all_missing, has_answer, grades.
  destruct (q1 r) as [v1|]; [intros _; exists v1; by left|].
  destruct (q2 r) as [v2|]; [intros _; exists v2; right; by left|].
  destruct (q3 r) as [v3|]; [intros _; exists v3; do 2 right; by left|].
  destruct (q4 r) as [v4|]; [intros _; exists v4; do 3 right; by left|].
  destruct (q5 r) as [v5|]; [intros _; exists v5; do 4 right; by left|].
  intros H. by destruct H.
Qed.

(** X8. On a frame whose given answers lie between 0 and 255, and
    whatever the threshold, [score_subjects] raises
    [IntCastingNaNError] exactly when the frame holds a row without
    any answer: the NaN mean of such a row cannot be cast to [uint8].
    On every other such frame it returns [self.data]. *)
Theorem score_subjects_raises_iff (self : QuestionnaireAnalysis)
    (maximal_nans_per_sub : Z) (h : heap) :
  Forall answers_in_range (frame h (data self)) ->
  (score_subjects self maximal_nans_per_sub h = Raise IntCastingNaNError <->
   Exists all_missing (frame h (data self))) /\
  (~ Exists all_missing (frame h (data self)) ->
   exists h', score_subjects self maximal_nans_per_sub h = Ok (data self, h')).
Proof.
  intros Hrange. split.
  - split; [|apply score_subjects_unanswered].
    unfold score_subjects. unfold and_then at 1, get at 1. unfold and_then at 1, eval.
    destruct (astype_uint8 (map nanmean (map grades (frame h (data self)))))
      as [u8|e] eqn:Hcast.
    + discriminate.
    + cbn [bind]. intros [= ->]. apply astype_uint8_nan_inv in Hcast.
      rewrite map_map in Hcast. apply in_map_iff in Hcast as (r & Hr & Hin).
      apply Exists_exists. exists r. split; [by apply list_elem_of_In|].
      by apply nanmean_None_all_missing.
  - intros Hnone. eexists. apply score_subjects_in_range.
    apply Forall_forall. intros r Hr. apply answers_mean_in_uint8. split.
    + apply not_all_missing. intros Hall. apply Hnone, Exists_exists. by exists r.
    + rewrite Forall_forall in Hrange. by apply Hrange.
Qed.

Lemma score_subjects_raises_iff_witness :
  (score_subjects q 1 (loaded sample_unanswered) = Raise IntCastingNaNError <->
   Exists all_missing (frame (loaded sample_unanswered) (data q))) /\
  (~ Exists all_missing (frame (loaded sample_unanswered) (data q)) ->
   exists h', score_subjects q 1 (loaded sample_unanswered) = Ok (data q, h')).
Proof.
  apply (score_subjects_raises_iff q 1 (loaded sample_unanswered)).
  repeat constructor; by compute.
Defined.

Lemma mapM_id_length (xs : list cell) (qs : list Q) :
  mapM id xs = Some qs -> length qs = length xs.
Proof.
  revert qs. induction xs as [|x xs IH]; intros qs; cbn [mapM].
  - by intros [= <-].
  - destruct x as [v|]; [|done]. destruct (mapM id xs) as [qs'|]; [|done].
    cbn. intros [= <-]. cbn. f_equal. by apply IH.
Qed.

Lemma astype_uint8_ok (xs : list cell) (u8 : list Z) :
  astype_uint8 xs = Ok u8 ->
  length u8 = length xs /\ Forall (fun n => 0 <= n < 256) u8.
Proof.
  unfold astype_uint8. destruct (mapM id xs) as [qs|] eqn:Hm; [|done].
  destruct (forallb (Qle_bool (0 # 1)) qs); [|done].
  intros [= <-]. rewrite length_map. split; [by apply mapM_id_length|].
  apply Forall_map, Forall_forall. intros x _. unfold cast_uint8.
  destruct (Qtrunc x <? 2 ^ 31); [apply Z.mod_pos_bound|]; lia.
Qed.

Lemma scored_and_masked (maximal_nans_per_sub : Z) (d : list row) (u8 : list Z) :
  zip_with (fun r (m : bool) => if m then set_score r NA else r)
    (zip_with set_score d (map U8 u8))
    (map (fun g => count_na g >? maximal_nans_per_sub) (map grades d))
  = zip_with (fun r n => set_score r (score_cell maximal_nans_per_sub r n)) d u8.
Proof.
  revert u8. induction d as [|r d IH]; intros [|n u8]; cbn [map zip_with]; try done.
  rewrite IH. f_equal. unfold score_cell.
  by destruct (count_na (grades r) >? maximal_nans_per_sub).
Qed.

(** A run of [score_subjects] that returns: the means were cast, and
    the rows of [self.data] got their score cells in place. *)
Lemma score_subjects_run (self : QuestionnaireAnalysis)
    (maximal_nans_per_sub : Z) (h h' : heap) (l : ref) :
  score_subjects self maximal_nans_per_sub h = Ok (l, h') ->
  exists u8,
    astype_uint8 (map nanmean (map grades (frame h (data self)))) = Ok u8 /\
    l = data self /\
    h' = <[data self :=
             zip_with (fun r n => set_score r (score_cell maximal_nans_per_sub r n))
                      (frame h (data self)) u8]> h.
Proof.
  unfold score_subjects. unfold and_then at 1, get at 1. unfold and_then at 1, eval.
  destruct (astype_uint8 (map nanmean (map grades (frame h (data self)))))
    as [u8|e] eqn:Hcast; [|discriminate].
  cbn [bind]. unfold set_score_column, mask_score_column, and_then, get, put, ret.
  rewrite frame_insert_eq, scored_and_masked, insert_insert_eq.
  intros [= <- <-]. by exists u8.
Qed.

(** X9. A run of [score_subjects] that returns has written into
    [self.data] only: it returns that very reference, every other
    frame of the store is as it was, and in [self.data] the rows are
    the same in number and order, with their age, gender, email and
    grades unchanged.  The score of a row is NA exactly when more than
    [maximal_nans_per_sub] of its answers are missing, and otherwise a
    number from 0 to 255. *)
Theorem score_subjects_effect (self : QuestionnaireAnalysis)
    (maximal_nans_per_sub : Z) (h h' : heap) (l : ref) :
  score_subjects self maximal_nans_per_sub h = Ok (l, h') ->
  l = data self /\
  (forall l', l' <> data self -> h' !! l' = h !! l') /\
  length (frame h' l) = length (frame h (data self)) /\
  forall i r, nth_error (frame h (data self)) i = Some r ->
    exists u,
      nth_error (frame h' l) i = Some u /\
      age u = age r /\ gender u = gender r /\ email u = email r /\
      grades u = grades r /\
      ((count_na (grades r) > maximal_nans_per_sub /\ score u = Some NA) \/
       (count_na (grades r) <= maximal_nans_per_sub /\
        exists n, score u = Some (U8 n) /\ 0 <= n < 256)).
Proof.
  intros Hrun.
  destruct (score_subjects_run _ _ _ _ _ Hrun) as (u8 & Hcast & -> & ->).
  apply astype_uint8_ok in Hcast as [Hlen Hrange].
  rewrite !length_map in Hlen.
  split; [done|]. split; [intros l' Hl'; by rewrite lookup_insert_ne|].
  rewrite frame_insert_eq. split.
  { rewrite length_zip_with. lia. }
  intros i r Hr.
  destruct (nth_error u8 i) as [n|] eqn:Hn.
  2: { apply nth_error_None in Hn.
       assert (i < length (frame h (data self)))%nat
         by (apply nth_error_Some; congruence).
       lia. }
  exists (set_score r (score_cell maximal_nans_per_sub r n)). split.
  { clear Hrun Hlen Hrange. revert i u8 Hr Hn.
    induction (frame h (data self)) as [|r0 d IH]; intros [|i] [|n0 u8]; try done.
    - cbn. by intros [= ->] [= ->].
    - cbn. apply IH. }
  do 4 (split; [done|]). unfold score_cell.
  destruct (Z.gtb_spec (count_na (grades r)) maximal_nans_per_sub) as [Hgt|Hle].
  - left. split; [lia|done].
  - right. split; [lia|]. exists n. split; [done|].
    rewrite Forall_forall in Hrange. apply Hrange, list_elem_of_In.
    by apply nth_error_In in Hn.
Qed.

Lemma score_subjects_effect_witness :
  data q = data q /\
  (forall l', l' <> data q ->
     <[data q := map (fun r => set_score r (row_score 1 r)) sample_answers]>
       (loaded sample_answers) !! l'
     = loaded sample_answers !! l') /\
  length (frame (<[data q := map (fun r => set_score r (row_score 1 r)) sample_answers]>
                   (loaded sample_answers)) (data q))
  = length (frame (loaded sample_answers) (data q)) /\
  forall i r, nth_error (frame (loaded sample_answers) (data q)) i = Some r ->
    exists u,
      nth_error (frame (<[data q := map (fun r => set_score r (row_score 1 r)) sample_answers]>
                          (loaded sample_answers)) (data q)) i = Some u /\
      age u = age r /\ gender u = gender r /\ email u = email r /\
      grades u = grades r /\
      ((count_na (grades r) > 1 /\ score u = Some NA) \/
       (count_na (grades r) <= 1 /\
        exists n, score u = Some (U8 n) /\ 0 <= n < 256)).
Proof.
  apply (score_subjects_effect q 1 (loaded sample_answers)).
  reflexivity.
Defined.

Lemma score_subjects_ok (self : QuestionnaireAnalysis)
    (maximal_nans_per_sub : Z) (h : heap) (u8 : list Z) :
  astype_uint8 (map nanmean (map grades (frame h (data self)))) = Ok u8 ->
  score_subjects self maximal_nans_per_sub h
  = Ok (data self,
        <[data self :=
            zip_with (fun r n => set_score r (score_cell maximal_nans_per_sub r n))
                     (frame h (data self)) u8]> h).
Proof.
  intros Hcast. unfold score_subjects.
  unfold and_then at 1, get at 1. unfold and_then at 1, eval. rewrite Hcast.
  cbn [bind]. unfold set_score_column, mask_score_column, and_then, get, put, ret.
  by rewrite frame_insert_eq, scored_and_masked, insert_insert_eq.
Qed.

Lemma grades_of_scored (c : row -> Z -> UInt8) (d : list row) (u8 : list Z) :
  length u8 = length d ->
  map grades (zip_with (fun r n => set_score r (c r n)) d u8) = map grades d.
Proof.
  revert u8. induction d as [|r d IH]; intros [|n u8]; cbn; try done.
  intros [= Hlen]. by rewrite IH.
Qed.

Lemma score_again (m1 m2 : Z) (d : list row) (u8 : list Z) :
  zip_with (fun r n => set_score r (score_cell m2 r n))
           (zip_with (fun r n => set_score r (score_cell m1 r n)) d u8) u8
  = zip_with (fun r n => set_score r (score_cell m2 r n)) d u8.
Proof.
  revert u8. induction d as [|r d IH]; intros [|n u8]; cbn [zip_with]; try done.
  by rewrite IH.
Qed.

(** X10. The score column is computed from the grades alone: after a
    run of [score_subjects] that returned, a second run, with the same
    or another threshold, leaves the store as a single run with that
    threshold would.  In particular a second run with the same
    threshold changes nothing. *)
Theorem score_subjects_again (self : QuestionnaireAnalysis)
    (first second : Z) (h h1 : heap) (l : ref) :
  score_subjects self first h = Ok (l, h1) ->
  score_subjects self second h1 = score_subjects self second h /\
  score_subjects self first h1 = Ok (l, h1).
Proof.
  intros Hrun.
  destruct (score_subjects_run _ _ _ _ _ Hrun) as (u8 & Hcast & -> & ->).
  pose proof (astype_uint8_ok _ _ Hcast) as [Hlen _].
  rewrite !length_map in Hlen.
  assert (forall m,
    score_subjects self m
      (<[data self := zip_with (fun r n => set_score r (score_cell first r n))
                               (frame h (data self)) u8]> h)
    = score_subjects self m h) as Hsame.
  { intros m. rewrite (score_subjects_ok self m h u8 Hcast).
    rewrite (score_subjects_ok self m _ u8).
    - by rewrite frame_insert_eq, score_again, insert_insert_eq.
    - rewrite frame_insert_eq, grades_of_scored; done. }
  split; [apply Hsame|]. by rewrite Hsame.
Qed.

Lemma score_subjects_again_witness :
  score_subjects q 3
    (<[data q := map (fun r => set_score r (row_score 1 r)) sample_answers]>
       (loaded sample_answers))
  = score_subjects q 3 (loaded sample_answers) /\
  score_subjects q 1
    (<[data q := map (fun r => set_score r (row_score 1 r)) sample_answers]>
       (loaded sample_answers))
  = Ok (data q,
        <[data q := map (fun r => set_score r (row_score 1 r)) sample_answers]>
          (loaded sample_answers)).
Proof.
  apply (score_subjects_again q 1 3 (loaded sample_answers)).
  reflexivity.
Defined.

(** X11. The two ends of the threshold: when [score_subjects]
    returns with a threshold of five or more, every row has a numeric
    score; with a negative threshold, every row has the score NA. *)
Theorem score_subjects_threshold_ends (self : QuestionnaireAnalysis)
    (maximal_nans_per_sub : Z) (h h' : heap) (l : ref) :
  score_subjects self maximal_nans_per_sub h = Ok (l, h') ->
  (5 <= maximal_nans_per_sub ->
   Forall (fun u => exists n, score u = Some (U8 n)) (frame h' l)) /\
  (maximal_nans_per_sub < 0 ->
   Forall (fun u => score u = Some NA) (frame h' l)).
Proof.
  intros Hrun.
  destruct (score_subjects_run _ _ _ _ _ Hrun) as (u8 & _ & -> & ->).
  rewrite frame_insert_eq. clear Hrun.
  split; intros Hmax; revert u8;
    induction (frame h (data self)) as [|r d IH]; intros [|n u8];
    cbn [zip_with]; try constructor; try apply IH.
  - exists n. cbn. unfold score_cell.
    by rewrite threshold_five_masks_nothing.
  - cbn. unfold score_cell.
    destruct (Z.gtb_spec (count_na (grades r)) maximal_nans_per_sub) as [_|Hle];
      [done|].
    unfold count_na in Hle. lia.
Qed.

Lemma score_subjects_threshold_ends_witness :
  (5 <= 5 ->
   Forall (fun u => exists n, score u = Some (U8 n))
     (frame (<[data q := map (fun r => set_score r (row_score 5 r)) sample_answers]>
               (loaded sample_answers)) (data q))) /\
  (5 < 0 ->
   Forall (fun u => score u = Some NA)
     (frame (<[data q := map (fun r => set_score r (row_score 5 r)) sample_answers]>
               (loaded sample_answers)) (data q))).
Proof.
  apply (score_subjects_threshold_ends q 5 (loaded sample_answers)).
  reflexivity.
Defined.

(** Filling keeps the mean of a row that has an answer. *)
Lemma nanmean_fill_row (r : row) :
  has_answer r -> nanmean (fill_row (grades r)) = nanmean (grades r).
Proof.
  intros (v & Hv). unfold grades in *.
  destruct (q1 r) as [a|], (q2 r) as [b|], (q3 r) as [c|], (q4 r) as [d|],
           (q5 r) as [e|];
    try (exfalso; simpl in Hv;
         repeat (destruct Hv as [Hv|Hv]; try discriminate); done);
    clear Hv;
    cbn -[Qred Qdiv Qplus Qmult Qinv];
    f_equal; apply Qred_complete; rewrite ?Qred_correct; field.
Qed.

Lemma count_na_filled (r : row) :
  has_answer r -> count_na (fill_row (grades r)) = 0.
Proof.
  intros Hans. pose proof (fill_row_complete r Hans) as Hc. unfold count_na.
  induction Hc as [|c cs Hc _ IH]; [done|].
  cbn [List.filter]. by destruct c.
Qed.

(** X12. Scoring after filling: on a frame in which every row has an
    answer and the answers are whole numbers from 0 to 255,
    [score_subjects] on
    the frame that [fill_na_with_mean] returned masks no row, whatever
    the threshold from 0 up, and gives every row the rounded-down mean
    of the answers it had before filling. *)
Theorem score_after_fill (self : QuestionnaireAnalysis)
    (maximal_nans_per_sub : Z) (h h' : heap) (updated_df : ref)
    (null_rows : list nat) :
  Forall whole_answers (frame h (data self)) ->
  0 <= maximal_nans_per_sub ->
  fill_na_with_mean self h = Ok ((updated_df, null_rows), h') ->
  exists h'',
    score_subjects (mk_self (data_fname self) updated_df) maximal_nans_per_sub h'
      = Ok (updated_df, h'') /\
    forall i r, nth_error (frame h (data self)) i = Some r ->
      exists u m,
        nth_error (frame h'' updated_df) i = Some u /\
        nanmean (grades r) = Some m /\
        score u = Some (U8 (Qfloor m)) /\
        ~ has_missing_answer u.
Proof.
  intros Hwhole Hmax.
  assert (Forall answers_in_uint8 (frame h (data self))) as Hd.
  { eapply Forall_impl; [exact Hwhole|]. apply whole_answers_in_uint8. }
  clear Hwhole.
  destruct (fill_na_with_mean_run self h) as (nr & _ & ->). intros [= <- _ <-].
  set (d := frame h (data self)) in *.
  set (l := fresh (dom h)).
  set (self' := mk_self (data_fname self) l).
  assert (Forall mean_in_uint8 (frame (<[l := filled_rows d]> h) (data self'))) as Hin.
  { cbn [data self']. rewrite frame_insert_eq. unfold filled_rows.
    apply Forall_map. eapply Forall_impl; [exact Hd|]. intros r Hr.
    destruct (answers_mean_in_uint8 r Hr) as (m & Hm & Hrange).
    exists m. split; [|done].
    change (grades (set_grades r (fill_row (grades r)))) with (fill_row (grades r)).
    rewrite nanmean_fill_row; [done|]. by destruct Hr. }
  eexists. split; [exact (score_subjects_in_range self' _ _ Hin)|].
  intros i r Hr. cbn [data self']. rewrite !frame_insert_eq.
  assert (answers_in_uint8 r) as Har.
  { rewrite Forall_forall in Hd. apply Hd, list_elem_of_In.
    by apply nth_error_In in Hr. }
  destruct (answers_mean_in_uint8 r Har) as (m & Hm & _).
  destruct Har as [Hans _].
  eexists. exists m. split.
  { unfold filled_rows. rewrite !nth_error_map. fold d. rewrite Hr. reflexivity. }
  split; [done|]. split.
  - cbn [score set_score]. unfold row_score.
    change (grades (set_grades r (fill_row (grades r)))) with (fill_row (grades r)).
    rewrite count_na_filled, nanmean_fill_row, Hm by done.
    destruct (Z.gtb_spec 0 maximal_nans_per_sub); [lia|done].
  - by apply (filled_row_complete r).
Qed.

Lemma score_after_fill_witness :
  exists h'',
    score_subjects (mk_self (data_fname q) 2%positive) 0
      (<[2%positive := filled_rows sample_answers]> (loaded sample_answers))
      = Ok (2%positive, h'') /\
    forall i r, nth_error (frame (loaded sample_answers) (data q)) i = Some r ->
      exists u m,
        nth_error (frame h'' 2%positive) i = Some u /\
        nanmean (grades r) = Some m /\
        score u = Some (U8 (Qfloor m)) /\
        ~ has_missing_answer u.
Proof.
  apply (score_after_fill q 0 (loaded sample_answers) _ 2%positive [0; 1]%nat).
  - repeat constructor; eexists; simpl; eauto.
  - lia.
  - reflexivity.
Defined.

(** ** Grouping by gender and age *)

Lemma in_bucket_known (g : str) (a : Q) (r : row) :
  age r = Some a -> gender r = Some g ->
  in_bucket g (if Qlt_le_dec (40 # 1) a then true else false) r = true.
Proof.
  intros Ha Hg. unfold in_bucket. rewrite Ha, Hg.
  rewrite bool_decide_eq_true_2 by done.
  by destruct (Qlt_le_dec (40 # 1) a).
Qed.



(** X14. On a frame that holds a row, the result of
    [correlate_gender_age] is empty exactly when no subject has both
    a known age and a known gender. *)
Theorem correlate_empty_iff (self : QuestionnaireAnalysis) (h : heap) :
  frame h (data self) <> [] ->
  exists res,
    correlate_gender_age self h = Ok (res, h) /\
    (res = ∅ <->
     Forall (fun r => age r = None \/ gender r = None) (frame h (data self))).
Proof.
  intros _.
  destruct (correlate_lookup self h (None, true)) as (res & Hres & _).
  exists res. split; [done|]. split.
  - intros ->. apply Forall_forall. intros r Hr. apply list_elem_of_In in Hr.
    destruct (age r) as [a|] eqn:Ha; [|by left].
    destruct (gender r) as [g|] eqn:Hg; [|by right].
    exfalso.
    set (b := if Qlt_le_dec (40 # 1) a then true else false).
    destruct (correlate_lookup self h (Some g, b)) as (res' & Hres' & Hlook).
    rewrite Hres in Hres'. injection Hres' as <-.
    rewrite lookup_empty in Hlook.
    assert (In r (bucket (frame h (data self)) g b)) as Hb.
    { unfold bucket. apply filter_In. split; [done|]. by apply in_bucket_known. }
    by destruct (bucket (frame h (data self)) g b).
  - intros Hall. apply map_eq. intros [[g|] b]; rewrite lookup_empty.
    + destruct (correlate_lookup self h (Some g, b)) as (res' & Hres' & Hlook).
      rewrite Hres in Hres'. injection Hres' as <-. rewrite Hlook.
      destruct (bucket (frame h (data self)) g b) as [|r rs] eqn:Hb; [done|].
      exfalso.
      assert (In r (bucket (frame h (data self)) g b)) as Hr by (rewrite Hb; by left).
      unfold bucket in Hr. apply filter_In in Hr as [Hr Hk].
      rewrite Forall_forall in Hall. apply list_elem_of_In, Hall in Hr.
      unfold in_bucket in Hk. destruct Hr as [Hr|Hr]; rewrite Hr in Hk; [done|].
      by destruct (age r).
    + destruct (correlate_lookup self h (None, b)) as (res' & Hres' & Hlook).
      rewrite Hres in Hres'. by injection Hres' as <-.
Qed.

Lemma correlate_empty_iff_witness :
  exists res,
    correlate_gender_age q (loaded sample_no_gender) = Ok (res, loaded sample_no_gender) /\
    (res = ∅ <->
     Forall (fun r => age r = None \/ gender r = None)
            (frame (loaded sample_no_gender) (data q))).
Proof.
  apply (correlate_empty_iff q (loaded sample_no_gender)). discriminate.
Defined.




(** ** Comparing two score files *)

Lemma cell_eq_same_score (r1 r2 : csv_row) :
  cell_eq (csv_score r1) (csv_score r2) = true <-> same_score r1 r2.
Proof.
  unfold cell_eq, same_score. split.
  - destruct (csv_score r1) as [x|], (csv_score r2) as [y|]; try done.
    intros H. exists x, y. repeat split. by apply Qeq_bool_iff.
  - intros (x & y & -> & -> & H). by apply Qeq_bool_iff.
Qed.

(** Selecting labelled rows by a mask: the labels stay with their
    rows and come out in increasing order. *)
Lemma mask_select_labelled {A : Type} (xs : list A) (mask : list bool) (a : nat) :
  let l := mask_select (combine (seq a (length xs)) xs) mask in
  StronglySorted lt (map fst l) /\
  Forall (fun p => (a <= fst p)%nat) l /\
  forall i x, In (i, x) l <->
    exists j, i = (a + j)%nat /\ nth_error xs j = Some x /\
              nth_error mask j = Some true.
Proof.
  revert mask a. induction xs as [|y xs IH]; intros mask a; cbn [length seq combine].
  { cbn. repeat split; try constructor; try done. intros (j & _ & H & _). by destruct j. }
  destruct mask as [|b mask].
  { cbn. repeat split; try constructor; try done. intros (j & _ & _ & H). by destruct j. }
  destruct (IH mask (S a)) as (Hs & Hge & Hin). cbn zeta in *.
  assert (forall i x,
    In (i, x) (mask_select (combine (seq (S a) (length xs)) xs) mask) <->
    exists j, i = (a + S j)%nat /\ nth_error xs j = Some x /\
              nth_error mask j = Some true) as Hin'.
  { intros i x. rewrite Hin. split; intros (j & -> & H); exists j; split; (lia || done). }
  cbn [mask_select]. destruct b.
  - split; [|split].
    + cbn [map fst]. constructor; [done|]. apply Forall_map.
      eapply Forall_impl; [exact Hge|]. cbn. intros; lia.
    + constructor; [cbn; lia|]. eapply Forall_impl; [exact Hge|]. cbn. intros; lia.
    + intros i x. cbn [In]. rewrite Hin'. split.
      * intros [[= <- <-]|(j & -> & H)]; [exists 0%nat|exists (S j)];
          split; (lia || done).
      * intros ([|j] & -> & Hx & Hm).
        -- left. cbn in Hx. injection Hx as ->. f_equal. lia.
        -- right. exists j. split; [lia|done].
  - split; [done|]. split.
    + eapply Forall_impl; [exact Hge|]. cbn. intros; lia.
    + intros i x. rewrite Hin'. split.
      * intros (j & -> & H). exists (S j). split; (lia || done).
      * intros ([|j] & -> & Hx & Hm); [done|]. exists j. split; [lia|done].
Qed.

Lemma nth_error_zip_with_cell_eq (df1 df2 : list csv_row) (j : nat) (r1 : csv_row) :
  nth_error df1 j = Some r1 ->
  nth_error (map negb (zip_with cell_eq (map csv_score df1) (map csv_score df2))) j
  = option_map (fun r2 => negb (cell_eq (csv_score r1) (csv_score r2)))
               (nth_error df2 j).
Proof.
  revert df2 j. induction df1 as [|x df1 IH]; intros df2 j Hr.
  - by destruct j.
  - destruct j as [|j], df2 as [|y df2]; cbn in *.
    + done.
    + by injection Hr as ->.
    + by destruct j.
    + by apply IH.
Qed.

Lemma compare_files_run (df1 df2 : list csv_row) :
  length df1 = length df2 ->
  compare_files df1 df2
  = Ok (mask_select (combine (seq 0 (length df1)) df1)
          (map negb (zip_with cell_eq (map csv_score df1) (map csv_score df2)))).
Proof.
  intros Hlen. unfold compare_files, series_eq. rewrite !length_map.
  by rewrite (proj2 (Nat.eqb_eq _ _) Hlen).
Qed.

(** X16. [compare_files] needs two frames of one length: otherwise
    the comparison of the two score columns raises [ValueError].  On
    frames of one length it returns the rows of the first frame, with
    their positions and in increasing order of position, whose score
    is not the same number as the score at that position in the second
    frame; a score that is NaN in either frame counts as different. *)
Theorem compare_files_differences (df1 df2 : list csv_row) :
  (length df1 <> length df2 -> compare_files df1 df2 = Raise ValueError) /\
  (length df1 = length df2 ->
   exists differences,
     compare_files df1 df2 = Ok differences /\
     StronglySorted lt (map fst differences) /\
     forall i r1, In (i, r1) differences <->
       exists r2, nth_error df1 i = Some r1 /\ nth_error df2 i = Some r2 /\
                  ~ same_score r1 r2).
Proof.
  split.
  - intros Hne. unfold compare_files, series_eq. rewrite !length_map.
    by rewrite (proj2 (Nat.eqb_neq _ _) Hne).
  - intros Hlen. rewrite compare_files_run by done.
    eexists. split; [reflexivity|].
    destruct (mask_select_labelled df1
      (map negb (zip_with cell_eq (map csv_score df1) (map csv_score df2))) 0)
      as (Hs & _ & Hin).
    split; [done|]. intros i r1. rewrite Hin. split.
    + intros (j & -> & Hr1 & Hm). cbn.
      rewrite (nth_error_zip_with_cell_eq df1 df2 j r1 Hr1) in Hm.
      destruct (nth_error df2 j) as [r2|]; [|done].
      exists r2. split; [done|]. split; [done|].
      rewrite <- cell_eq_same_score. cbn in Hm. injection Hm as Hm.
      by destruct (cell_eq (csv_score r1) (csv_score r2)).
    + intros (r2 & Hr1 & Hr2 & Hd). exists i. split; [done|]. split; [done|].
      rewrite (nth_error_zip_with_cell_eq df1 df2 i r1 Hr1), Hr2. cbn. f_equal.
      rewrite <- cell_eq_same_score in Hd.
      by destruct (cell_eq (csv_score r1) (csv_score r2)).
Qed.

(** X17. Compared with itself, a frame is not reported as free of
    differences: [compare_files] returns exactly its rows whose score
    is NaN, since NaN is not equal to NaN. *)
Theorem compare_files_with_itself (df : list csv_row) :
  exists differences,
    compare_files df df = Ok differences /\
    forall i r, In (i, r) differences <->
                nth_error df i = Some r /\ csv_score r = None.
Proof.
  rewrite compare_files_run by done. eexists. split; [reflexivity|].
  destruct (mask_select_labelled df
    (map negb (zip_with cell_eq (map csv_score df) (map csv_score df))) 0)
    as (_ & _ & Hin).
  intros i r. rewrite Hin. split.
  - intros (j & -> & Hr & Hm). cbn. split; [done|].
    rewrite (nth_error_zip_with_cell_eq df df j r Hr), Hr in Hm.
    cbn in Hm. injection Hm as Hm. unfold cell_eq in Hm.
    destruct (csv_score r) as [x|]; [|done].
    rewrite (proj2 (Qeq_bool_iff x x)) in Hm; [done|reflexivity].
  - intros [Hr Hs]. exists i. split; [done|]. split; [done|].
    rewrite (nth_error_zip_with_cell_eq df df i r Hr), Hr. cbn. by rewrite Hs.
Qed.

(** ** The age histogram *)

Lemma list_sum_map_add {A : Type} (f g : A -> nat) (ps : list A) :
  list_sum (map (fun p => (f p + g p)%nat) ps)
  = (list_sum (map f ps) + list_sum (map g ps))%nat.
Proof.
  unfold list_sum. induction ps as [|p ps IH]; cbn [map fold_right]; [done|].
  rewrite IH. lia.
Qed.

(** The counts of a histogram add up to one count per value and bin
    that holds it. *)
Lemma hist_total (ps : list (cell -> bool)) (xs : list cell) :
  list_sum (map (fun p => length (List.filter p xs)) ps)
  = list_sum (map (fun x => list_sum (map (fun p : cell -> bool =>
                                             if p x then 1%nat else 0%nat) ps)) xs).
Proof.
  induction xs as [|x xs IH].
  - cbn [List.filter map length]. unfold list_sum.
    induction ps as [|p ps IHp]; cbn [map fold_right]; [done|]. by rewrite IHp.
  - cbn [map]. change (list_sum (?a :: ?l)) with (a + list_sum l)%nat.
    rewrite <- IH.
    rewrite <- (list_sum_map_add
                  (fun p : cell -> bool => if p x then 1%nat else 0%nat)
                  (fun p => length (List.filter p xs))).
    f_equal. apply map_ext. intros p. cbn [List.filter]. by destruct (p x).
Qed.

Lemma count_filter {A : Type} (P : A -> bool) (xs : list A) :
  list_sum (map (fun x => if P x then 1%nat else 0%nat) xs)
  = length (List.filter P xs).
Proof.
  induction xs as [|x xs IH]; [done|].
  cbn [map List.filter]. change (list_sum (?a :: ?l)) with (a + list_sum l)%nat.
  rewrite IH. by destruct (P x).
Qed.

Lemma linspace_edges :
  linspace_0_100_11
  = map inject_Z [0; 10; 20; 30; 40; 50; 60; 70; 80; 90; 100].
Proof. reflexivity. Qed.

Lemma Qle_bool_inject_l (k n : Z) (d : positive) :
  Qle_bool (inject_Z k) (n # d) = (k * Z.pos d <=? n).
Proof. unfold Qle_bool. cbn [Qnum Qden inject_Z]. by rewrite Z.mul_1_r. Qed.

Lemma Qle_bool_inject_r (k n : Z) (d : positive) :
  Qle_bool (n # d) (inject_Z k) = (n <=? k * Z.pos d).
Proof. unfold Qle_bool. cbn [Qnum Qden inject_Z]. by rewrite Z.mul_1_r. Qed.

(** The ten bins between the edges 0, 10, ..., 100 hold every value
    from 0 to 100 once, and no other. *)
Lemma bins_partition (x : cell) :
  list_sum (map (fun p : cell -> bool => if p x then 1%nat else 0%nat)
                (bins linspace_0_100_11))
  = if age_in_range x then 1%nat else 0%nat.
Proof.
  rewrite linspace_edges. destruct x as [[n d]|]; [|reflexivity].
  cbn [map bins list_sum fold_right age_in_range].
  change (0 # 1)%Q with (inject_Z 0). change (100 # 1)%Q with (inject_Z 100).
  rewrite !Qle_bool_inject_l, !Qle_bool_inject_r.
  pose proof (Pos2Z.is_pos d) as Hd. generalize dependent (Z.pos d). intros D Hd.
  repeat match goal with
         | |- context [(?a <=? ?b)%Z] =>
             destruct (Z.leb_spec a b); try (exfalso; lia)
         end; reflexivity.
Qed.

Lemma show_age_distrib_run (self : QuestionnaireAnalysis) (h : heap) :
  show_age_distrib self h
  = Ok ((hist (map age (frame h (data self))) linspace_0_100_11,
         linspace_0_100_11), h).
Proof. reflexivity. Qed.

(** X18. [show_age_distrib] returns the eleven edges 0, 10, ..., 100
    and ten counts, and leaves the store as it was.  The counts add up
    to the number of subjects whose age is known and lies from 0 to
    100, both included: a missing age and an age outside this range
    are counted in no bin. *)
Theorem show_age_distrib_total (self : QuestionnaireAnalysis) (h : heap) :
  exists hist_values bin_edges,
    show_age_distrib self h = Ok ((hist_values, bin_edges), h) /\
    bin_edges = map inject_Z [0; 10; 20; 30; 40; 50; 60; 70; 80; 90; 100] /\
    length hist_values = 10%nat /\
    list_sum hist_values
    = length (List.filter (fun r => age_in_range (age r)) (frame h (data self))).
Proof.
  rewrite show_age_distrib_run. do 2 eexists. split; [reflexivity|].
  split; [reflexivity|]. split; [reflexivity|].
  unfold hist. rewrite hist_total.
  erewrite map_ext; [|intros x; apply bins_partition].
  rewrite count_filter. clear.
  induction (frame h (data self)) as [|r d IH]; [done|].
  cbn [map List.filter]. destruct (age_in_range (age r)); cbn [length]; by rewrite IH.
Qed.

Lemma floor_tens (n : Z) (d : positive) :
  Qfloor ((n # d) / (10 # 1)) = n / (10 * Z.pos d).
Proof.
  unfold Qdiv, Qinv, Qmult, Qfloor. cbn [Qnum Qden].
  by rewrite Z.mul_1_r, Pos2Z.inj_mul, Z.mul_comm.
Qed.

Lemma tens_unique (n D k : Z) :
  0 < D -> 10 * k * D <= n < 10 * (k + 1) * D -> n / (10 * D) = k.
Proof.
  intros HD Hn. symmetry. apply Z.div_unique with (r := n - 10 * D * k); lia.
Qed.

(** The bin tests between the edges 0, 10, ..., 100, by the tens of
    the age. *)
Lemma bins_by_tens (x : cell) :
  map (fun p : cell -> bool => p x) (bins linspace_0_100_11)
  = map (fun k => in_age_bin k x) [0; 1; 2; 3; 4; 5; 6; 7; 8; 9].
Proof.
  rewrite linspace_edges. destruct x as [[n d]|]; [|reflexivity].
  cbn [map bins in_age_bin age_in_range]. unfold age_bin. rewrite floor_tens.
  change (0 # 1)%Q with (inject_Z 0). change (100 # 1)%Q with (inject_Z 100).
  rewrite !Qle_bool_inject_l, !Qle_bool_inject_r.
  pose proof (Pos2Z.is_pos d) as Hd. generalize dependent (Z.pos d). intros D Hd.
  repeat match goal with
         | |- context [(?a <=? ?b)%Z] =>
             destruct (Z.leb_spec a b); try (exfalso; lia)
         end;
    first [ reflexivity
          | rewrite (tens_unique n D 0) by lia; reflexivity
          | rewrite (tens_unique n D 1) by lia; reflexivity
          | rewrite (tens_unique n D 2) by lia; reflexivity
          | rewrite (tens_unique n D 3) by lia; reflexivity
          | rewrite (tens_unique n D 4) by lia; reflexivity
          | rewrite (tens_unique n D 5) by lia; reflexivity
          | rewrite (tens_unique n D 6) by lia; reflexivity
          | rewrite (tens_unique n D 7) by lia; reflexivity
          | rewrite (tens_unique n D 8) by lia; reflexivity
          | rewrite (tens_unique n D 9) by lia; reflexivity
          | rewrite (tens_unique n D 10) by lia; reflexivity
          | destruct (Z.eq_dec n (100 * D));
            [ rewrite (tens_unique n D 10) by lia
            | rewrite (tens_unique n D 9) by lia ];
            reflexivity ].
Qed.

Lemma counts_ext {K : Type} (ps : list (cell -> bool)) (ks : list K)
    (g : K -> cell -> bool) (xs : list cell) :
  (forall x, map (fun p : cell -> bool => p x) ps = map (fun k => g k x) ks) ->
  map (fun p => length (List.filter p xs)) ps
  = map (fun k => length (List.filter (g k) xs)) ks.
Proof.
  revert ks. induction ps as [|p ps IH]; intros [|k ks] H.
  - done.
  - specialize (H None). done.
  - specialize (H None). done.
  - cbn [map]. f_equal.
    + f_equal. apply filter_ext. intros x. specialize (H x). cbn in H. congruence.
    + apply IH. intros x. specialize (H x). cbn in H. congruence.
Qed.

(** X19. The count of bin [k] of [show_age_distrib], for [k] from 0
    to 9, is the number of subjects of known age from 0 to 100 whose
    age has [k] tens; an age of exactly 100 is counted in the last
    bin, with the ages from 90 up. *)
Theorem show_age_distrib_bins (self : QuestionnaireAnalysis) (h : heap) :
  exists hist_values bin_edges,
    show_age_distrib self h = Ok ((hist_values, bin_edges), h) /\
    hist_values
    = map (fun k => length (List.filter (fun r => in_age_bin k (age r))
                                        (frame h (data self))))
          [0; 1; 2; 3; 4; 5; 6; 7; 8; 9].
Proof.
  rewrite show_age_distrib_run. do 2 eexists. split; [reflexivity|].
  unfold hist. rewrite (counts_ext _ _ in_age_bin _ bins_by_tens).
  apply map_ext. intros k. clear.
  induction (frame h (data self)) as [|r d IH]; [done|].
  cbn [map List.filter]. destruct (in_age_bin k (age r)); cbn [length]; by rewrite IH.
Qed.

(** Two files of three scores: the second row is NaN in the first
    file, the third row differs. *)
Example compare_files_example :
  compare_files sample_scores
    [mk_csv_row [] (num 5); mk_csv_row [] (num 6); mk_csv_row [] (num 8)]
  = Ok [(1%nat, mk_csv_row [num 1] None); (2%nat, mk_csv_row [num 2] (num 7))] /\
  compare_files sample_scores [] = Raise ValueError.
Proof. split; reflexivity. Qed.

(** Ages 0, 10, 99, 100, 101, a negative age and a missing one. *)
Example hist_example :
  hist [num 0; num 10; num 99; num 100; num 101; Some (-1 # 2)%Q; None]
       linspace_0_100_11
  = [1; 1; 0; 0; 0; 0; 0; 0; 0; 2]%nat.
Proof. reflexivity. Qed.
